(** * Anderson acceleration (src/aa.c): a functional model and its properties

    The file follows aa.c function by function.  The C state record
    [struct ACCEL_WORK] becomes the record [AaWork]; every pointer field is an
    [option] (with [None] for the null pointer); the arrays are lists in the
    column-major layout the C code uses.  The dense kernels that aa.c only
    declares (nrm2, gemv, gesv, gemm) are an interface, [Blas]; axpy and
    memcpy act elementwise and are written out.  Every kernel call is
    recorded, with its integer arguments, in a trace, and so are the two
    messages the code prints.

    [aa_int] and [blas_int] are typedefs of aa.h and scs_blas.h; they are
    modelled by [Z], signed overflow being undefined in C: the model is the
    C code as long as the count and the sizes stay in the range of the two
    types ([in_range], [sizes_fit]), and the theorems on what a call does
    assume that they do.  [aa_float] is the
    parameter [F] with the arithmetic of [Scalar]; [MAX_AA_NRM] and [MIN] come
    from the same headers. *)

From Stdlib Require Import ZArith List Bool Lia Ascii String Ring SpecFloat.
Import ListNotations.
Local Open Scope Z_scope.

Set Implicit Arguments.

(** ** Scalars *)

(** The arithmetic aa.c and its kernels perform on [aa_float]: the literals
    0.0, 1.0 and -1.0, sum, product, difference and the comparison [>=]. *)
Class Scalar (F : Type) := {
  fzero : F;
  fone : F;
  fneg_one : F;
  fadd : F -> F -> F;
  fmul : F -> F -> F;
  fsub : F -> F -> F;
  fge : F -> F -> bool
}.

(** What a dense backend needs on top of it. *)
Class ScalarField (F : Type) := {
  fdiv : F -> F -> F;
  fabs : F -> F;
  fsqrt : F -> F;
  feqb : F -> F -> bool;
  fltb : F -> F -> bool
}.

(** ** The dense kernels aa.c declares but does not define

    Arguments are in the order of the C prototypes; an array argument that the
    kernel overwrites is returned.  [blas_gesv] returns the factored matrix,
    the pivots, the solution and [info]. *)
Class Blas (F : Type) := {
  blas_nrm2 : Z -> list F -> Z -> F;
  blas_gemv : string -> Z -> Z -> F -> list F -> Z -> list F -> Z -> F ->
              list F -> Z -> list F;
  blas_gesv : Z -> Z -> list F -> Z -> list Z -> list F -> Z ->
              list F * list Z * list F * Z;
  blas_gemm : string -> string -> Z -> Z -> Z -> F -> list F -> Z ->
              list F -> Z -> F -> list F -> Z -> list F
}.

(** ** Observable events: kernel calls and diagnostics *)

Inductive event (F : Type) : Type :=
| Call_axpy (n : Z)
| Call_gemm (transa transb : string) (m n k lda ldb ldc : Z)
| Call_gemv (trans : string) (m n lda : Z)
| Call_gesv (n nrhs lda ldb : Z)
| Call_nrm2 (n : Z)
| Print_error (iter info : Z) (nrm : F)
| Print_alloc_failed.

Arguments Call_axpy {F} n.
Arguments Call_gemm {F} transa transb m n k lda ldb ldc.
Arguments Call_gemv {F} trans m n lda.
Arguments Call_gesv {F} n nrhs lda ldb.
Arguments Call_nrm2 {F} n.
Arguments Print_error {F} iter info nrm.
Arguments Print_alloc_failed {F}.

(** ** Allocation

    [calloc] may fail.  The allocator is the list of outcomes of the requests
    still to come: [true] when the request is satisfied.  A request past the
    end of the list fails, as does one of negative count. *)
Definition allocator := list bool.

Definition calloc {A : Type} (zero : A) (n : Z) (h : allocator)
  : option (list A) * allocator :=
  match h with
  | true :: h' =>
      ((if n <? 0 then None else Some (repeat zero (Z.to_nat n))), h')
  | false :: h' => (None, h')
  | [] => (None, [])
  end.

Section Model.

Context {F : Type} {SF : Scalar F} {BL : Blas F}.

(** [MAX_AA_NRM] of aa.h. *)
Variable MAX_AA_NRM : F.

(** [MIN] of the project headers. *)
Definition MIN (a b : Z) : Z := if a <? b then a else b.

(** *** Computations that may go wrong

    [None] is undefined behaviour of the C program: a null pointer
    dereferenced, an access outside an array, a remainder by zero.  Otherwise
    the result comes with the events of the computation, oldest first. *)
Definition R (A : Type) : Type := option (A * list (event F)).

Definition ret {A : Type} (v : A) : R A := Some (v, []).

Definition bind {A B : Type} (m : R A) (f : A -> R B) : R B :=
  match m with
  | None => None
  | Some (v, t) =>
      match f v with
      | None => None
      | Some (w, t') => Some (w, t ++ t')
      end
  end.

Definition ub {A : Type} : R A := None.

Definition emit (e : event F) : R unit := Some (tt, [e]).

Definition deref {A : Type} (p : option A) : R A :=
  match p with
  | Some v => ret v
  | None => ub
  end.

Notation "x <- m ;; k" := (bind m (fun x => k))
  (at level 100, m at next level, right associativity).

Definition len {A : Type} (v : list A) : Z := Z.of_nat (List.length v).

(** [memcpy(&dst[off], src, n * sizeof(aa_float))]. *)
Definition memcpy (dst : list F) (off : Z) (src : list F) (n : Z)
  : R (list F) :=
  if (0 <=? off) && (0 <=? n) && (n <=? len src) && (off + n <=? len dst)
  then ret (firstn (Z.to_nat off) dst ++ firstn (Z.to_nat n) src
            ++ skipn (Z.to_nat (off + n)) dst)
  else ub.

(** [axpy(&n, &a, x, &one, y, &one)]: y[i] <- y[i] + a * x[i] for i < n. *)
Definition axpy_list (a : F) (x y : list F) : list F :=
  map (fun p => fadd (fst p) (fmul a (snd p))) (combine y x).

Definition axpy (n : Z) (a : F) (x : list F) (y : list F) : R (list F) :=
  if (0 <=? n) && (n <=? len x) && (n <=? len y)
  then _ <- emit (Call_axpy n) ;;
       ret (axpy_list a (firstn (Z.to_nat n) x) (firstn (Z.to_nat n) y)
            ++ skipn (Z.to_nat n) y)
  else ub.

(** Calls through the backend, recorded. *)
Definition gemm (transa transb : string) (m n k : Z) (alpha : F)
  (a : list F) (lda : Z) (b : list F) (ldb : Z) (beta : F) (c : list F)
  (ldc : Z) : R (list F) :=
  _ <- emit (Call_gemm transa transb m n k lda ldb ldc) ;;
  ret (blas_gemm transa transb m n k alpha a lda b ldb beta c ldc).

Definition gemv (trans : string) (m n : Z) (alpha : F) (a : list F)
  (lda : Z) (x : list F) (incx : Z) (beta : F) (y : list F) (incy : Z)
  : R (list F) :=
  _ <- emit (Call_gemv trans m n lda) ;;
  ret (blas_gemv trans m n alpha a lda x incx beta y incy).

Definition gesv (n nrhs : Z) (a : list F) (lda : Z) (ipiv : list Z)
  (b : list F) (ldb : Z) : R (list F * list Z * list F * Z) :=
  _ <- emit (Call_gesv n nrhs lda ldb) ;;
  ret (blas_gesv n nrhs a lda ipiv b ldb).

Definition nrm2 (n : Z) (x : list F) (incx : Z) : R F :=
  _ <- emit (Call_nrm2 n) ;;
  ret (blas_nrm2 n x incx).

(** *** [struct ACCEL_WORK] *)
Record AaWork : Type := mkAaWork {
  a_type1 : Z;
  a_k : Z;
  a_l : Z;
  a_iter : Z;
  a_x : option (list F);
  a_f : option (list F);
  a_g : option (list F);
  a_g_prev : option (list F);
  a_y : option (list F);
  a_s : option (list F);
  a_d : option (list F);
  a_Y : option (list F);
  a_S : option (list F);
  a_D : option (list F);
  a_M : option (list F);
  a_work : option (list F);
  a_ipiv : option (list Z)
}.

Definition set_iter (a : AaWork) (v : Z) : AaWork :=
  mkAaWork (a_type1 a) (a_k a) (a_l a) v (a_x a) (a_f a) (a_g a)
    (a_g_prev a) (a_y a) (a_s a) (a_d a) (a_Y a) (a_S a) (a_D a) (a_M a)
    (a_work a) (a_ipiv a).
Definition set_x (a : AaWork) (v : list F) : AaWork :=
  mkAaWork (a_type1 a) (a_k a) (a_l a) (a_iter a) (Some v) (a_f a) (a_g a)
    (a_g_prev a) (a_y a) (a_s a) (a_d a) (a_Y a) (a_S a) (a_D a) (a_M a)
    (a_work a) (a_ipiv a).
Definition set_f (a : AaWork) (v : list F) : AaWork :=
  mkAaWork (a_type1 a) (a_k a) (a_l a) (a_iter a) (a_x a) (Some v) (a_g a)
    (a_g_prev a) (a_y a) (a_s a) (a_d a) (a_Y a) (a_S a) (a_D a) (a_M a)
    (a_work a) (a_ipiv a).
Definition set_g (a : AaWork) (v : list F) : AaWork :=
  mkAaWork (a_type1 a) (a_k a) (a_l a) (a_iter a) (a_x a) (a_f a) (Some v)
    (a_g_prev a) (a_y a) (a_s a) (a_d a) (a_Y a) (a_S a) (a_D a) (a_M a)
    (a_work a) (a_ipiv a).
Definition set_g_prev (a : AaWork) (v : list F) : AaWork :=
  mkAaWork (a_type1 a) (a_k a) (a_l a) (a_iter a) (a_x a) (a_f a) (a_g a)
    (Some v) (a_y a) (a_s a) (a_d a) (a_Y a) (a_S a) (a_D a) (a_M a)
    (a_work a) (a_ipiv a).
Definition set_y (a : AaWork) (v : list F) : AaWork :=
  mkAaWork (a_type1 a) (a_k a) (a_l a) (a_iter a) (a_x a) (a_f a) (a_g a)
    (a_g_prev a) (Some v) (a_s a) (a_d a) (a_Y a) (a_S a) (a_D a) (a_M a)
    (a_work a) (a_ipiv a).
Definition set_s (a : AaWork) (v : list F) : AaWork :=
  mkAaWork (a_type1 a) (a_k a) (a_l a) (a_iter a) (a_x a) (a_f a) (a_g a)
    (a_g_prev a) (a_y a) (Some v) (a_d a) (a_Y a) (a_S a) (a_D a) (a_M a)
    (a_work a) (a_ipiv a).
Definition set_d (a : AaWork) (v : list F) : AaWork :=
  mkAaWork (a_type1 a) (a_k a) (a_l a) (a_iter a) (a_x a) (a_f a) (a_g a)
    (a_g_prev a) (a_y a) (a_s a) (Some v) (a_Y a) (a_S a) (a_D a) (a_M a)
    (a_work a) (a_ipiv a).
Definition set_Y (a : AaWork) (v : list F) : AaWork :=
  mkAaWork (a_type1 a) (a_k a) (a_l a) (a_iter a) (a_x a) (a_f a) (a_g a)
    (a_g_prev a) (a_y a) (a_s a) (a_d a) (Some v) (a_S a) (a_D a) (a_M a)
    (a_work a) (a_ipiv a).
Definition set_S (a : AaWork) (v : list F) : AaWork :=
  mkAaWork (a_type1 a) (a_k a) (a_l a) (a_iter a) (a_x a) (a_f a) (a_g a)
    (a_g_prev a) (a_y a) (a_s a) (a_d a) (a_Y a) (Some v) (a_D a) (a_M a)
    (a_work a) (a_ipiv a).
Definition set_D (a : AaWork) (v : list F) : AaWork :=
  mkAaWork (a_type1 a) (a_k a) (a_l a) (a_iter a) (a_x a) (a_f a) (a_g a)
    (a_g_prev a) (a_y a) (a_s a) (a_d a) (a_Y a) (a_S a) (Some v) (a_M a)
    (a_work a) (a_ipiv a).
Definition set_M (a : AaWork) (v : list F) : AaWork :=
  mkAaWork (a_type1 a) (a_k a) (a_l a) (a_iter a) (a_x a) (a_f a) (a_g a)
    (a_g_prev a) (a_y a) (a_s a) (a_d a) (a_Y a) (a_S a) (a_D a) (Some v)
    (a_work a) (a_ipiv a).
Definition set_work (a : AaWork) (v : list F) : AaWork :=
  mkAaWork (a_type1 a) (a_k a) (a_l a) (a_iter a) (a_x a) (a_f a) (a_g a)
    (a_g_prev a) (a_y a) (a_s a) (a_d a) (a_Y a) (a_S a) (a_D a) (a_M a)
    (Some v) (a_ipiv a).
Definition set_ipiv (a : AaWork) (v : list Z) : AaWork :=
  mkAaWork (a_type1 a) (a_k a) (a_l a) (a_iter a) (a_x a) (a_f a) (a_g a)
    (a_g_prev a) (a_y a) (a_s a) (a_d a) (a_Y a) (a_S a) (a_D a) (a_M a)
    (a_work a) (Some v).

(** [a->type1 ? a->S : a->Y] *)
Definition anchor (a : AaWork) : option (list F) :=
  if a_type1 a =? 0 then a_Y a else a_S a.

(** *** [set_m]: a->M <- S'Y or Y'Y *)
Definition set_m (a : AaWork) : R AaWork :=
  let bl := a_l a in
  let bk := a_k a in
  let onef := fone in
  let zerof := fzero in
  A <- deref (anchor a) ;;
  Y <- deref (a_Y a) ;;
  M <- deref (a_M a) ;;
  M' <- gemm "Trans"%string "No"%string bk bk bl onef A bl Y bl zerof M bk ;;
  ret (set_M a M').

(** *** [update_accel_params] *)
Definition update_accel_params (x f : list F) (a : AaWork) : R AaWork :=
  if a_k a =? 0 then ub else
  let idx := Z.rem (a_iter a) (a_k a) in
  let l := a_l a in
  let bl := l in
  let neg_onef := fneg_one in
  (* g = x; s = x; d = f *)
  g0 <- deref (a_g a) ;; g1 <- memcpy g0 0 x l ;; let a := set_g a g1 in
  s0 <- deref (a_s a) ;; s1 <- memcpy s0 0 x l ;; let a := set_s a s1 in
  d0 <- deref (a_d a) ;; d1 <- memcpy d0 0 f l ;; let a := set_d a d1 in
  (* g -= f; s -= x_prev; d -= f_prev *)
  g2 <- axpy bl neg_onef f g1 ;; let a := set_g a g2 in
  xp <- deref (a_x a) ;;
  s2 <- axpy bl neg_onef xp s1 ;; let a := set_s a s2 in
  fp <- deref (a_f a) ;;
  d2 <- axpy bl neg_onef fp d1 ;; let a := set_d a d2 in
  (* y = g; y -= g_prev *)
  y0 <- deref (a_y a) ;; y1 <- memcpy y0 0 g2 l ;; let a := set_y a y1 in
  gp <- deref (a_g_prev a) ;;
  y2 <- axpy bl neg_onef gp y1 ;; let a := set_y a y2 in
  (* columns idx of Y, S, D *)
  Y0 <- deref (a_Y a) ;; Y1 <- memcpy Y0 (idx * l) y2 l ;;
  let a := set_Y a Y1 in
  S0 <- deref (a_S a) ;; S1 <- memcpy S0 (idx * l) s2 l ;;
  let a := set_S a S1 in
  D0 <- deref (a_D a) ;; D1 <- memcpy D0 (idx * l) d2 l ;;
  let a := set_D a D1 in
  (* snapshots of f and x *)
  f1 <- memcpy fp 0 f l ;; let a := set_f a f1 in
  x1 <- memcpy xp 0 x l ;; let a := set_x a x1 in
  a <- set_m a ;;
  g_prev1 <- memcpy gp 0 g2 l ;;
  ret (set_g_prev a g_prev1).

(** *** [solve]: the result is the status, the caller's f and the state *)
Definition solve (f : list F) (a : AaWork) (len : Z)
  : R (Z * list F * AaWork) :=
  let bl := a_l a in
  let one := 1 in
  let blen := len in
  let bk := a_k a in
  let neg_onef := fneg_one in
  let onef := fone in
  let zerof := fzero in
  A <- deref (anchor a) ;;
  g <- deref (a_g a) ;;
  work0 <- deref (a_work a) ;;
  work1 <- gemv "Trans"%string bl blen onef A bl g one zerof work0 one ;;
  let a := set_work a work1 in
  M <- deref (a_M a) ;;
  ipiv <- deref (a_ipiv a) ;;
  r <- gesv blen one M bk ipiv work1 blen ;;
  let '(M', ipiv', work2, info) := r in
  let a := set_work (set_ipiv (set_M a M') ipiv') work2 in
  nrm <- nrm2 bk work2 one ;;
  if (info <? 0) || fge nrm MAX_AA_NRM then
    _ <- emit (Print_error (a_iter a) info nrm) ;;
    ret (-1, f, a)
  else
    D <- deref (a_D a) ;;
    f' <- gemv "NoTrans"%string bl blen neg_onef D bl work2 one onef f one ;;
    ret (info, f', a).

(** *** [aa_init]: [None] is the null handle

    The first request is the one for the record, the only one whose
    outcome is tested. *)
Definition aa_init (l aa_mem type1 : Z) (h : allocator)
  : option AaWork * list (event F) * allocator :=
  let '(a, h) := calloc tt 1 h in
  match a with
  | None => (None, [Print_alloc_failed], h)
  | Some _ =>
      let k := aa_mem in
      if k <=? 0 then
        (Some (mkAaWork type1 k l 0 None None None None None None None None
                 None None None None None), [], h)
      else
        let '(x, h) := calloc fzero l h in
        let '(f, h) := calloc fzero l h in
        let '(g, h) := calloc fzero l h in
        let '(g_prev, h) := calloc fzero l h in
        let '(y, h) := calloc fzero l h in
        let '(s, h) := calloc fzero l h in
        let '(d, h) := calloc fzero l h in
        let '(mY, h) := calloc fzero (l * k) h in
        let '(mS, h) := calloc fzero (l * k) h in
        let '(mD, h) := calloc fzero (l * k) h in
        let '(mM, h) := calloc fzero (k * k) h in
        let '(work, h) := calloc fzero k h in
        let '(ipiv, h) := calloc 0 k h in
        (Some (mkAaWork type1 k l 0 x f g g_prev y s d mY mS mD mM work
                 ipiv),
         [], h)
  end.

(** *** [aa_apply] *)
Definition aa_apply (f x : list F) (a : AaWork) : R (Z * list F * AaWork) :=
  if a_k a <=? 0 then ret (0, f, a)
  else
    a <- update_accel_params x f a ;;
    let iter0 := a_iter a in
    let a := set_iter a (iter0 + 1) in
    if iter0 =? 0 then ret (0, f, a)
    else solve f a (MIN (a_iter a - 1) (a_k a)).

(** *** Vocabulary of the statements *)

(** The product by -1.0. *)
Definition fopp (v : F) : F := fmul fneg_one v.

(** u - v the way aa.c computes it, by axpy with -1.0 on a copy of u:
    u[i] + (-1.0) * v[i]. *)
Definition vsub (u v : list F) : list F := axpy_list fneg_one v u.

(** u - v with the subtraction of the scalars. *)
Definition vminus (u v : list F) : list F :=
  map (fun p => fsub (fst p) (snd p)) (combine u v).

(** [m] with the [len v] entries from [off] on replaced by [v]. *)
Definition store (m : list F) (off : Z) (v : list F) : list F :=
  firstn (Z.to_nat off) m ++ v ++ skipn (Z.to_nat (off + len v)) m.

(** Column j of a matrix of l rows stored by columns. *)
Definition col (l : Z) (m : list F) (j : Z) : list F :=
  firstn (Z.to_nat l) (skipn (Z.to_nat (j * l)) m).

Definition has_len (p : option (list F)) (n : Z) : bool :=
  match p with
  | Some v => len v =? n
  | None => false
  end.

Definition allocated {A : Type} (p : option A) : bool :=
  match p with
  | Some _ => true
  | None => false
  end.

(** An enabled instance whose buffers are all there, with the sizes
    [aa_init] asks for. *)
Definition well_formed (a : AaWork) : bool :=
  (0 <? a_k a) && (0 <=? a_l a) && (0 <=? a_iter a)
  && has_len (a_x a) (a_l a) && has_len (a_f a) (a_l a)
  && has_len (a_g a) (a_l a) && has_len (a_g_prev a) (a_l a)
  && has_len (a_y a) (a_l a) && has_len (a_s a) (a_l a)
  && has_len (a_d a) (a_l a)
  && has_len (a_Y a) (a_l a * a_k a) && has_len (a_S a) (a_l a * a_k a)
  && has_len (a_D a) (a_l a * a_k a)
  && allocated (a_M a) && allocated (a_work a) && allocated (a_ipiv a).

(** Every buffer of the record was obtained. *)
Definition all_allocated (a : AaWork) : bool :=
  allocated (a_x a) && allocated (a_f a) && allocated (a_g a)
  && allocated (a_g_prev a) && allocated (a_y a) && allocated (a_s a)
  && allocated (a_d a) && allocated (a_Y a) && allocated (a_S a)
  && allocated (a_D a) && allocated (a_M a) && allocated (a_work a)
  && allocated (a_ipiv a).

(** *** The range of the integers

    The count, the sizes and the column offset are [aa_int] in the C code, and
    l, k and len are cast to [blas_int] for the kernels.  The code prints
    [a->iter] and [info] with the conversion [%i]: both types are [int],
    whose largest value is [INT_MAX], 2147483647 for the 32 bits [int] has
    (a value within this range is within that of any wider type too).  The
    model computes in [Z], which is the arithmetic of the C code as long as
    [a->iter++], [idx * l], [a->l * a->k] and [a->k * a->k] are
    representable; past that the C code overflows, and nothing is claimed.
    [sizes_fit] says that l, k and the two products [aa_init] computes are
    representable; [in_range] says it of a state on which [aa_apply] is
    called: of its sizes, its count and the count plus one. *)
Definition INT_MAX : Z := 2147483647.

Definition representable (int_max v : Z) : bool :=
  (- int_max - 1 <=? v) && (v <=? int_max).

Definition sizes_fit (int_max l k : Z) : bool :=
  representable int_max l && representable int_max k
  && representable int_max (l * k) && representable int_max (k * k).

Definition in_range (int_max : Z) (a : AaWork) : bool :=
  representable int_max (a_iter a) && representable int_max (a_iter a + 1)
  && sizes_fit int_max (a_l a) (a_k a).

(** The states a host can hold: a handle [aa_init] returned with all its
    buffers, then any number of calls of [aa_apply] on vectors of length l. *)
Inductive reachable (l k type1 : Z) : AaWork -> Prop :=
| reach_init : forall h a evs h',
    aa_init l k type1 h = (Some a, evs, h') ->
    all_allocated a = true ->
    reachable l k type1 a
| reach_step : forall a f x st f' a' tr,
    reachable l k type1 a ->
    len x = l -> len f = l ->
    aa_apply f x a = Some (st, f', a', tr) ->
    reachable l k type1 a'.

(** *** What one call leaves behind, when nothing goes wrong *)

Definition buf {A : Type} (p : option (list A)) : list A :=
  match p with
  | Some v => v
  | None => []
  end.

(** Offset of the column a call writes: [idx * l]. *)
Definition column_offset (a : AaWork) : Z :=
  Z.rem (a_iter a) (a_k a) * a_l a.

Definition updated (x f : list F) (a : AaWork) : AaWork :=
  let g := vsub x f in
  let s := vsub x (buf (a_x a)) in
  let d := vsub f (buf (a_f a)) in
  let y := vsub g (buf (a_g_prev a)) in
  let mY := store (buf (a_Y a)) (column_offset a) y in
  let mS := store (buf (a_S a)) (column_offset a) s in
  let mD := store (buf (a_D a)) (column_offset a) d in
  let mM := blas_gemm "Trans" "No" (a_k a) (a_k a) (a_l a) fone
              (if a_type1 a =? 0 then mY else mS) (a_l a) mY (a_l a)
              fzero (buf (a_M a)) (a_k a) in
  mkAaWork (a_type1 a) (a_k a) (a_l a) (a_iter a) (Some x) (Some f)
    (Some g) (Some g) (Some y) (Some s) (Some d) (Some mY) (Some mS)
    (Some mD) (Some mM) (a_work a) (a_ipiv a).

Definition update_trace (a : AaWork) : list (event F) :=
  [Call_axpy (a_l a); Call_axpy (a_l a); Call_axpy (a_l a);
   Call_axpy (a_l a);
   Call_gemm "Trans" "No" (a_k a) (a_k a) (a_l a) (a_l a) (a_l a) (a_k a)].

(** The state in which [aa_apply] calls [solve], or returns on the first
    call: the update done and the count incremented. *)
Definition stepped (x f : list F) (a : AaWork) : AaWork :=
  set_iter (updated x f a) (a_iter a + 1).

(** The values [solve] computes on the way. *)
Definition solve_rhs (a : AaWork) (len : Z) : list F :=
  blas_gemv "Trans" (a_l a) len fone (buf (anchor a)) (a_l a) (buf (a_g a))
    1 fzero (buf (a_work a)) 1.

Definition solve_gesv (a : AaWork) (len : Z) : list F * list Z * list F * Z :=
  blas_gesv len 1 (buf (a_M a)) (a_k a) (buf (a_ipiv a)) (solve_rhs a len)
    len.

Definition solve_info (a : AaWork) (len : Z) : Z := snd (solve_gesv a len).

Definition solve_weights (a : AaWork) (len : Z) : list F :=
  snd (fst (solve_gesv a len)).

Definition solve_norm (a : AaWork) (len : Z) : F :=
  blas_nrm2 (a_k a) (solve_weights a len) 1.

(** The test [info < 0 || nrm >= MAX_AA_NRM]. *)
Definition solve_rejects (a : AaWork) (len : Z) : bool :=
  (solve_info a len <? 0) || fge (solve_norm a len) MAX_AA_NRM.

(** f - D w over the first [len] columns of D, as the last gemv forms it. *)
Definition corrected (f : list F) (a : AaWork) (len : Z) : list F :=
  blas_gemv "NoTrans" (a_l a) len fneg_one (buf (a_D a)) (a_l a)
    (solve_weights a len) 1 fone f 1.

(** The state [solve] leaves, on either branch: gesv has overwritten M, the
    pivots and the workspace. *)
Definition after_solve (a : AaWork) (len : Z) : AaWork :=
  set_work
    (set_ipiv (set_M (set_work a (solve_rhs a len))
                 (fst (fst (fst (solve_gesv a len)))))
       (snd (fst (fst (solve_gesv a len)))))
    (solve_weights a len).

Definition solve_calls (a : AaWork) (len : Z) : list (event F) :=
  [Call_gemv "Trans" (a_l a) len (a_l a); Call_gesv len 1 (a_k a) len;
   Call_nrm2 (a_k a)].

(** A host loop: the calls of [aa_apply] on the pairs (x, f) in turn, the
    outputs dropped. *)
Fixpoint run (calls : list (list F * list F)) (a : AaWork)
  : option AaWork :=
  match calls with
  | [] => Some a
  | (x, f) :: rest =>
      match aa_apply f x a with
      | Some (_, _, a', _) => run rest a'
      | None => None
      end
  end.

Definition zeros (n : Z) : list F := repeat fzero (Z.to_nat n).

(** A new enabled instance, every request satisfied. *)
Definition fresh (l k type1 : Z) : AaWork :=
  mkAaWork type1 k l 0 (Some (zeros l)) (Some (zeros l)) (Some (zeros l))
    (Some (zeros l)) (Some (zeros l)) (Some (zeros l)) (Some (zeros l))
    (Some (zeros (l * k))) (Some (zeros (l * k))) (Some (zeros (l * k)))
    (Some (zeros (k * k))) (Some (zeros k)) (Some (repeat 0 (Z.to_nat k))).

(** A new disabled instance: the record alone. *)
Definition fresh_disabled (l k type1 : Z) : AaWork :=
  mkAaWork type1 k l 0 None None None None None None None None None None
    None None None.

(** Vectors of the length the instance was built for. *)
Definition sized (l : Z) (c : list F * list F) : Prop :=
  len (fst c) = l /\ len (snd c) = l.

End Model.

Arguments AaWork F : clear implicits.
Arguments R F A : clear implicits.

(** ** A reference backend

    The kernels written out in the loop order of the reference BLAS and
    LAPACK (gemv, gemm, nrm2 without rescaling, and gesv as an unblocked LU
    factorization with partial pivoting followed by the two triangular
    solves), over any scalars.  It serves to run the model on concrete
    inputs; the theorems on [aa_apply] hold for every backend.  Two
    refinements of the reference code are left out: nrm2 sums the squares
    as they are, so it overflows where the rescaled sum would not, and the
    multipliers are always scaled by the reciprocal of the pivot, also for
    a pivot below the safe minimum.  The runs below stay far from both. *)
Section Reference.

Context {F : Type} {SF : Scalar F} {FF : ScalarField F}.

Definition get {A : Type} (dflt : A) (v : list A) (i : Z) : A :=
  nth (Z.to_nat i) v dflt.

Fixpoint put_nat {A : Type} (v : list A) (i : nat) (e : A) : list A :=
  match v, i with
  | [], _ => []
  | _ :: t, O => e :: t
  | h :: t, S i' => h :: put_nat t i' e
  end.

Definition put {A : Type} (v : list A) (i : Z) (e : A) : list A :=
  if i <? 0 then v else put_nat v (Z.to_nat i) e.

(** [lo; lo+1; ...; hi-1] *)
Definition range (lo hi : Z) : list Z :=
  map (fun i => lo + Z.of_nat i) (seq 0 (Z.to_nat (hi - lo))).

Definition is_trans (s : string) : bool :=
  match s with
  | String c _ => (Ascii.eqb c "T"%char) || (Ascii.eqb c "t"%char)
  | EmptyString => false
  end.

Definition ref_nrm2 (n : Z) (x : list F) (incx : Z) : F :=
  fsqrt (fold_left
           (fun acc i => fadd acc (fmul (get fzero x (i * incx))
                                        (get fzero x (i * incx))))
           (range 0 n) fzero).

Definition scale_beta (beta y : F) : F :=
  if feqb beta fzero then fzero
  else if feqb beta fone then y
  else fmul beta y.

Definition ref_gemv (trans : string) (m n : Z) (alpha : F) (a : list F)
  (lda : Z) (x : list F) (incx : Z) (beta : F) (y : list F) (incy : Z)
  : list F :=
  let leny := if is_trans trans then n else m in
  let y0 := fold_left
              (fun y i => put y (i * incy)
                            (scale_beta beta (get fzero y (i * incy))))
              (range 0 leny) y in
  if is_trans trans then
    fold_left
      (fun y j =>
         let temp := fold_left
                       (fun t i => fadd t (fmul (get fzero a (i + j * lda))
                                                (get fzero x (i * incx))))
                       (range 0 m) fzero in
         put y (j * incy) (fadd (get fzero y (j * incy)) (fmul alpha temp)))
      (range 0 n) y0
  else
    fold_left
      (fun y j =>
         let temp := fmul alpha (get fzero x (j * incx)) in
         fold_left
           (fun y i => put y (i * incy)
                         (fadd (get fzero y (i * incy))
                               (fmul temp (get fzero a (i + j * lda)))))
           (range 0 m) y)
      (range 0 n) y0.

Definition ref_gemm (transa transb : string) (m n k : Z) (alpha : F)
  (a : list F) (lda : Z) (b : list F) (ldb : Z) (beta : F) (c : list F)
  (ldc : Z) : list F :=
  let opa i p := if is_trans transa then get fzero a (p + i * lda)
                 else get fzero a (i + p * lda) in
  let opb p j := if is_trans transb then get fzero b (j + p * ldb)
                 else get fzero b (p + j * ldb) in
  fold_left
    (fun c j =>
       fold_left
         (fun c i =>
            let temp := fold_left
                          (fun t p => fadd t (fmul (opa i p) (opb p j)))
                          (range 0 k) fzero in
            put c (i + j * ldc)
              (if feqb beta fzero then fmul alpha temp
               else fadd (fmul alpha temp)
                         (fmul beta (get fzero c (i + j * ldc)))))
         (range 0 m) c)
    (range 0 n) c.

Definition swap (v : list F) (i j : Z) : list F :=
  put (put v i (get fzero v j)) j (get fzero v i).

(** Row of the first entry of largest magnitude in column j, rows j..n-1. *)
Definition pivot_row (a : list F) (lda n j : Z) : Z :=
  fold_left
    (fun p i => if fltb (fabs (get fzero a (p + j * lda)))
                        (fabs (get fzero a (i + j * lda)))
                then i else p)
    (range (j + 1) n) j.

(** Column j of the factorization: pivot search, row interchange, scaling
    of the multipliers, rank-one update of the trailing block.  [info]
    becomes j+1 at the first exactly zero pivot. *)
Definition getf2_step (lda n : Z) (st : list F * list Z * Z) (j : Z)
  : list F * list Z * Z :=
  let '(a, ipiv, info) := st in
  let p := pivot_row a lda n j in
  let ipiv := put ipiv j (p + 1) in
  let '(a, info) :=
    if feqb (get fzero a (p + j * lda)) fzero
    then (a, if info =? 0 then j + 1 else info)
    else
      let a := if p =? j then a
               else fold_left (fun a c => swap a (j + c * lda) (p + c * lda))
                      (range 0 n) a in
      let r := fdiv fone (get fzero a (j + j * lda)) in
      (fold_left (fun a i => put a (i + j * lda)
                               (fmul (get fzero a (i + j * lda)) r))
         (range (j + 1) n) a, info) in
  let a :=
    fold_left
      (fun a c =>
         if feqb (get fzero a (j + c * lda)) fzero then a
         else
           let temp := fmul fneg_one (get fzero a (j + c * lda)) in
           fold_left
             (fun a i => put a (i + c * lda)
                           (fadd (get fzero a (i + c * lda))
                                 (fmul (get fzero a (i + j * lda)) temp)))
             (range (j + 1) n) a)
      (range (j + 1) n) a in
  (a, ipiv, info).

(** Solution of L U x = P b from the factors, column by column of b. *)
Definition getrs (n nrhs : Z) (a : list F) (lda : Z) (ipiv : list Z)
  (b : list F) (ldb : Z) : list F :=
  fold_left
    (fun b c =>
       let at_ i := i + c * ldb in
       let b := fold_left
                  (fun b i => let p := get 0 ipiv i - 1 in
                              if p =? i then b else swap b (at_ i) (at_ p))
                  (range 0 n) b in
       let b := fold_left
                  (fun b kk =>
                     if feqb (get fzero b (at_ kk)) fzero then b
                     else fold_left
                            (fun b i =>
                               put b (at_ i)
                                 (fsub (get fzero b (at_ i))
                                       (fmul (get fzero b (at_ kk))
                                             (get fzero a (i + kk * lda)))))
                            (range (kk + 1) n) b)
                  (range 0 n) b in
       fold_left
         (fun b kk =>
            if feqb (get fzero b (at_ kk)) fzero then b
            else
              let b := put b (at_ kk)
                         (fdiv (get fzero b (at_ kk))
                               (get fzero a (kk + kk * lda))) in
              fold_left
                (fun b i =>
                   put b (at_ i)
                     (fsub (get fzero b (at_ i))
                           (fmul (get fzero b (at_ kk))
                                 (get fzero a (i + kk * lda)))))
                (range 0 kk) b)
         (rev (range 0 n)) b)
    (range 0 nrhs) b.

(** [info] is negative for an illegal argument, positive when the factor U
    has an exactly zero pivot (the system is then left unsolved), and 0 on
    success. *)
Definition ref_gesv (n nrhs : Z) (a : list F) (lda : Z) (ipiv : list Z)
  (b : list F) (ldb : Z) : list F * list Z * list F * Z :=
  if n <? 0 then (a, ipiv, b, -1)
  else if nrhs <? 0 then (a, ipiv, b, -2)
  else if lda <? Z.max 1 n then (a, ipiv, b, -4)
  else if ldb <? Z.max 1 n then (a, ipiv, b, -7)
  else
    let '(a', ipiv', info) :=
      fold_left (getf2_step lda n) (range 0 n) (a, ipiv, 0) in
    if info =? 0 then (a', ipiv', getrs n nrhs a' lda ipiv' b ldb, 0)
    else (a', ipiv', b, info).

Definition RefBlas : Blas F := {|
  blas_nrm2 := ref_nrm2;
  blas_gemv := ref_gemv;
  blas_gesv := ref_gesv;
  blas_gemm := ref_gemm
|}.

End Reference.

(** ** Two scalar types *)

(** IEEE 754 binary64, the [double] of a default build. *)
Module B64.

Definition prec : Z := 53.
Definition emax : Z := 1024.

Definition of_Z (n : Z) : spec_float := binary_normalize prec emax n 0 false.

(** 2^e, for e in the normal range *)
Definition pow2 (e : Z) : spec_float := binary_normalize prec emax 1 e false.

Definition ge (x y : spec_float) : bool :=
  match SFcompare x y with
  | Some Gt | Some Eq => true
  | _ => false
  end.

#[export] Instance scalar : Scalar spec_float := {|
  fzero := S754_zero false;
  fone := of_Z 1;
  fneg_one := of_Z (-1);
  fadd := SFadd prec emax;
  fmul := SFmul prec emax;
  fsub := SFsub prec emax;
  fge := ge
|}.

#[export] Instance field : ScalarField spec_float := {|
  fdiv := SFdiv prec emax;
  fabs := SFabs;
  fsqrt := SFsqrt prec emax;
  feqb := SFeqb;
  fltb := SFltb
|}.

#[export] Instance blas : Blas spec_float := RefBlas.

(** 1e4, the value aa.h gives [MAX_AA_NRM] *)
Definition max_aa_nrm : spec_float := of_Z 10000.

End B64.

(** The integers: exact arithmetic, no rounding. *)
Module ZS.

#[export] Instance scalar : Scalar Z := {|
  fzero := 0;
  fone := 1;
  fneg_one := -1;
  fadd := Z.add;
  fmul := Z.mul;
  fsub := Z.sub;
  fge := Z.geb
|}.

#[export] Instance field : ScalarField Z := {|
  fdiv := Z.quot;
  fabs := Z.abs;
  fsqrt := Z.sqrt;
  feqb := Z.eqb;
  fltb := Z.ltb
|}.

#[export] Instance blas : Blas Z := RefBlas.

Definition max_aa_nrm : Z := 10000.

End ZS.

(** ** Concrete instances used below *)
Module Examples.

Import B64.

Definition vec (zs : list Z) : list spec_float := map of_Z zs.

(** The state after the first call, on x and f, of a new instance. *)
Definition warm (l k type1 : Z) (x f : list Z) : AaWork spec_float :=
  stepped (vec x) (vec f) (fresh l k type1).

(** l = 1, k = 1, type 1, first call on x = 0, f = 1. *)
Definition after_0_1 : AaWork spec_float := warm 1 1 1 [0] [1].

(** l = 1, k = 2, type 1, first call on x = 2, f = 1. *)
Definition depth_two : AaWork spec_float := warm 1 2 1 [2] [1].

(** l = 1, k = 1, type 1, first call on x = 0, f = -10000. *)
Definition steep : AaWork spec_float := warm 1 1 1 [0] [-10000].

(** The record and every buffer but the first are obtained. *)
Definition all_but_x : allocator := true :: false :: repeat true 12.

(** What [aa_init] returns then. *)
Definition without_x : AaWork spec_float :=
  mkAaWork 1 1 1 0 None (Some (zeros 1)) (Some (zeros 1)) (Some (zeros 1))
    (Some (zeros 1)) (Some (zeros 1)) (Some (zeros 1)) (Some (zeros 1))
    (Some (zeros 1)) (Some (zeros 1)) (Some (zeros 1)) (Some (zeros 1))
    (Some [0]).

End Examples.

(** ** [aa_finish]

    The blocks the code holds, one per pointer of [struct ACCEL_WORK] and
    one for the record itself.  [aa_finish] is modelled by the calls of
    [free] it makes, in order; its argument is the handle, [None] when
    null. *)
Inductive block : Type :=
| Blk_x | Blk_f | Blk_g | Blk_g_prev | Blk_y | Blk_s | Blk_d
| Blk_Y | Blk_S | Blk_D | Blk_M | Blk_work | Blk_ipiv | Blk_record.

(** [if (p) { free(p); }] *)
Definition free_if {A : Type} (b : block) (p : option A) : list block :=
  match p with
  | Some _ => [b]
  | None => []
  end.

Definition aa_finish {F : Type} (a : option (AaWork F)) : list block :=
  match a with
  | None => []
  | Some a =>
      free_if Blk_x (a_x a) ++ free_if Blk_f (a_f a)
      ++ free_if Blk_g (a_g a) ++ free_if Blk_g_prev (a_g_prev a)
      ++ free_if Blk_y (a_y a) ++ free_if Blk_s (a_s a)
      ++ free_if Blk_d (a_d a) ++ free_if Blk_Y (a_Y a)
      ++ free_if Blk_S (a_S a) ++ free_if Blk_D (a_D a)
      ++ free_if Blk_M (a_M a) ++ free_if Blk_work (a_work a)
      ++ free_if Blk_ipiv (a_ipiv a) ++ [Blk_record]
  end.

(** Whether the instance holds the block. *)
Definition held {F : Type} (a : AaWork F) (b : block) : bool :=
  match b with
  | Blk_x => allocated (a_x a)
  | Blk_f => allocated (a_f a)
  | Blk_g => allocated (a_g a)
  | Blk_g_prev => allocated (a_g_prev a)
  | Blk_y => allocated (a_y a)
  | Blk_s => allocated (a_s a)
  | Blk_d => allocated (a_d a)
  | Blk_Y => allocated (a_Y a)
  | Blk_S => allocated (a_S a)
  | Blk_D => allocated (a_D a)
  | Blk_M => allocated (a_M a)
  | Blk_work => allocated (a_work a)
  | Blk_ipiv => allocated (a_ipiv a)
  | Blk_record => true
  end.

Definition all_blocks : list block :=
  [Blk_x; Blk_f; Blk_g; Blk_g_prev; Blk_y; Blk_s; Blk_d; Blk_Y; Blk_S;
   Blk_D; Blk_M; Blk_work; Blk_ipiv; Blk_record].

(** The requests an allocator satisfies among those it is asked. *)
Definition granted (h : allocator) : nat := count_occ bool_dec h true.

(** ** Properties *)

Unset Implicit Arguments.

Section Properties.

Context {F : Type} {SF : Scalar F} {BL : Blas F}.

Variable MAX_AA_NRM : F.

(** *** Lists *)

Lemma len_nonneg {A : Type} (v : list A) : 0 <= len v.
Proof. unfold len. lia. Qed.

Lemma len_app {A : Type} (u v : list A) : len (u ++ v) = len u + len v.
Proof. unfold len. rewrite length_app. lia. Qed.

Lemma len_firstn {A : Type} (n : Z) (v : list A) :
  0 <= n <= len v -> len (firstn (Z.to_nat n) v) = n.
Proof. unfold len. intros H. rewrite length_firstn. lia. Qed.

Lemma len_skipn {A : Type} (n : Z) (v : list A) :
  0 <= n <= len v -> len (skipn (Z.to_nat n) v) = len v - n.
Proof. unfold len. intros H. rewrite length_skipn. lia. Qed.

Lemma firstn_len {A : Type} (v : list A) : firstn (Z.to_nat (len v)) v = v.
Proof. unfold len. rewrite Nat2Z.id. apply firstn_all. Qed.

Lemma skipn_len {A : Type} (v : list A) : skipn (Z.to_nat (len v)) v = [].
Proof. unfold len. rewrite Nat2Z.id. apply skipn_all. Qed.

Lemma len_axpy_list (c : F) (x y : list F) :
  len x = len y -> len (axpy_list c x y) = len y.
Proof.
  unfold len, axpy_list. intros H.
  rewrite length_map, length_combine. lia.
Qed.

Lemma len_vsub (u v : list F) : len v = len u -> len (vsub u v) = len u.
Proof. apply len_axpy_list. Qed.

Lemma len_store (m : list F) (off : Z) (v : list F) :
  0 <= off -> off + len v <= len m -> len (store m off v) = len m.
Proof.
  intros Hoff Hfit. pose proof (len_nonneg v) as Hv. unfold store.
  rewrite !len_app, len_firstn, len_skipn by lia. lia.
Qed.

(** *** The memory operations, inside their bounds *)

Lemma memcpy_whole (dst src : list F) (n : Z) :
  len dst = n -> len src = n -> memcpy dst 0 src n = Some (src, []).
Proof.
  intros Hd Hs. pose proof (len_nonneg src) as Hn. unfold memcpy.
  replace ((0 <=? 0) && (0 <=? n) && (n <=? len src) && (0 + n <=? len dst))
    with true by (symmetry; rewrite !andb_true_iff; repeat split; lia).
  replace (0 + n) with (len dst) by lia.
  rewrite <- Hs, firstn_len, skipn_len.
  simpl. rewrite app_nil_r. reflexivity.
Qed.

Lemma memcpy_store (dst : list F) (off : Z) (src : list F) (n : Z) :
  0 <= off -> len src = n -> off + n <= len dst ->
  memcpy dst off src n = Some (store dst off src, []).
Proof.
  intros Hoff Hs Hfit. pose proof (len_nonneg src) as Hn. unfold memcpy.
  replace ((0 <=? off) && (0 <=? n) && (n <=? len src)
           && (off + n <=? len dst))
    with true by (symmetry; rewrite !andb_true_iff; repeat split; lia).
  unfold store. subst n. rewrite firstn_len. reflexivity.
Qed.

Lemma axpy_whole (n : Z) (c : F) (x y : list F) :
  len x = n -> len y = n ->
  axpy n c x y = Some (axpy_list c x y, [Call_axpy n]).
Proof.
  intros Hx Hy. pose proof (len_nonneg x) as Hn. unfold axpy.
  replace ((0 <=? n) && (n <=? len x) && (n <=? len y))
    with true by (symmetry; rewrite !andb_true_iff; repeat split; lia).
  replace (firstn (Z.to_nat n) x) with x by (rewrite <- Hx, firstn_len; reflexivity).
  replace (firstn (Z.to_nat n) y) with y by (rewrite <- Hy, firstn_len; reflexivity).
  replace (skipn (Z.to_nat n) y) with (@nil F) by (rewrite <- Hy, skipn_len; reflexivity).
  simpl. rewrite app_nil_r. reflexivity.
Qed.

Lemma has_len_inv (p : option (list F)) (n : Z) :
  has_len p n = true -> exists v, p = Some v /\ len v = n.
Proof.
  destruct p as [v|]; simpl; [|discriminate].
  intros H. exists v. split; [reflexivity | lia].
Qed.

Lemma allocated_inv {A : Type} (p : option A) :
  allocated p = true -> exists v, p = Some v.
Proof. destruct p as [v|]; simpl; [eauto | discriminate]. Qed.

(** The remainder of C on a non-negative count is the index of a column. *)
Lemma rem_column (n k : Z) :
  0 <= n -> 0 < k -> Z.rem n k = n mod k /\ 0 <= Z.rem n k < k.
Proof.
  intros Hn Hk. rewrite Z.rem_mod_nonneg by lia.
  split; [reflexivity | apply Z.mod_pos_bound; lia].
Qed.

(** *** [update_accel_params] on a well-formed state *)

Ltac open_wf H a :=
  unfold well_formed in H;
  repeat (let H' := fresh "Hwf" in
          apply andb_prop in H; destruct H as [H H']);
  destruct a as [t k l it bx bf bg bgp by_ bs bd bY bS bD bM bw bi];
  cbn [a_type1 a_k a_l a_iter a_x a_f a_g a_g_prev a_y a_s a_d a_Y a_S a_D
       a_M a_work a_ipiv] in *;
  repeat match goal with
         | H : has_len _ _ = true |- _ =>
             apply has_len_inv in H; destruct H as [? [-> ?]]
         | H : allocated _ = true |- _ =>
             apply allocated_inv in H; destruct H as [? ->]
         | H : (_ <? _) = true |- _ => apply Z.ltb_lt in H
         | H : (_ <=? _) = true |- _ => apply Z.leb_le in H
         end.

Ltac len_tac :=
  repeat (rewrite len_axpy_list); solve [assumption | lia | congruence].

Ltac step_mem :=
  first [ rewrite memcpy_whole by len_tac
        | rewrite axpy_whole by len_tac
        | rewrite memcpy_store by (try len_tac; nia) ];
  cbn -[memcpy axpy gemm Z.rem Z.mul Z.eqb Z.add].

Lemma update_accel_params_eq (x f : list F) (a : AaWork F) :
  well_formed a = true -> len x = a_l a -> len f = a_l a ->
  update_accel_params x f a = Some (updated x f a, update_trace a).
Proof.
  intros Hwf Hx Hf. open_wf Hwf a.
  destruct (rem_column it k Hwf13 Hwf) as [_ Hidx].
  unfold update_accel_params, updated, update_trace, column_offset.
  cbn -[memcpy axpy gemm Z.rem Z.mul Z.eqb Z.add].
  replace (k =? 0) with false by (symmetry; apply Z.eqb_neq; lia).
  repeat step_mem.
  unfold set_m, anchor, gemm, emit.
  cbn -[memcpy axpy Z.rem Z.mul Z.eqb Z.add].
  destruct (t =? 0); cbn -[memcpy axpy Z.rem Z.mul Z.eqb Z.add];
    repeat step_mem; reflexivity.
Qed.

(** *** [solve] and [aa_apply] on a well-formed state *)

Lemma solve_eq (f : list F) (a : AaWork F) (n : Z) :
  well_formed a = true ->
  solve MAX_AA_NRM f a n =
  Some (if solve_rejects MAX_AA_NRM a n
        then (-1, f, after_solve a n,
              solve_calls a n
              ++ [Print_error (a_iter a) (solve_info a n) (solve_norm a n)])
        else (solve_info a n, corrected f a n, after_solve a n,
              solve_calls a n
              ++ [Call_gemv "NoTrans" (a_l a) n (a_l a)])).
Proof.
  intros Hwf. open_wf Hwf a.
  unfold solve, solve_rejects, corrected, after_solve, solve_calls.
  unfold solve_norm. unfold solve_info, solve_weights.
  unfold solve_gesv. unfold solve_rhs, anchor, gemv, gesv, nrm2, emit.
  unfold set_work, set_ipiv, set_M.
  cbn -[Z.ltb Z.eqb].
  destruct (t =? 0); cbn -[Z.ltb Z.eqb];
    match goal with
    | |- context [blas_gesv ?a1 ?a2 ?a3 ?a4 ?a5 ?a6 ?a7] =>
        destruct (blas_gesv a1 a2 a3 a4 a5 a6 a7) as [[[M' ip'] w'] info]
    end;
    cbn -[Z.ltb Z.eqb];
    match goal with
    | |- context [if ?c then _ else _] => destruct c
    end; reflexivity.
Qed.

Lemma column_offset_bounds (a : AaWork F) :
  0 < a_k a -> 0 <= a_l a -> 0 <= a_iter a ->
  0 <= column_offset a /\ column_offset a + a_l a <= a_l a * a_k a.
Proof.
  intros Hk Hl Hit. unfold column_offset.
  destruct (rem_column _ _ Hit Hk) as [_ Hidx]. split; nia.
Qed.

Ltac wf_goal :=
  unfold well_formed;
  cbn [a_type1 a_k a_l a_iter a_x a_f a_g a_g_prev a_y a_s a_d a_Y a_S a_D
       a_M a_work a_ipiv has_len allocated];
  repeat (apply andb_true_intro; split);
  try reflexivity;
  try (apply Z.ltb_lt; lia); try (apply Z.leb_le; lia);
  try (apply Z.eqb_eq).

Lemma updated_well_formed (x f : list F) (a : AaWork F) :
  well_formed a = true -> len x = a_l a -> len f = a_l a ->
  well_formed (updated x f a) = true.
Proof.
  intros Hwf Hx Hf.
  assert (Hoff : 0 < a_k a /\ 0 <= a_l a /\ 0 <= a_iter a).
  { unfold well_formed in Hwf. rewrite !andb_true_iff in Hwf.
    repeat split; [apply Z.ltb_lt | apply Z.leb_le | apply Z.leb_le];
      tauto. }
  destruct Hoff as (Hk & Hl & Hit).
  destruct (column_offset_bounds a Hk Hl Hit) as [Ho1 Ho2].
  unfold updated. revert Ho1 Ho2. generalize (column_offset a) as off.
  intros off Ho1 Ho2. open_wf Hwf a. unfold vsub. cbn [buf].
  wf_goal;
    first [ len_tac
          | rewrite len_store;
            repeat (rewrite len_axpy_list); solve [lia | congruence] ].
Qed.

Lemma set_iter_well_formed (a : AaWork F) (n : Z) :
  well_formed a = true -> 0 <= n -> well_formed (set_iter a n) = true.
Proof.
  intros Hwf Hn. open_wf Hwf a. unfold set_iter.
  cbn [a_type1 a_k a_l a_iter a_x a_f a_g a_g_prev a_y a_s a_d a_Y a_S a_D
       a_M a_work a_ipiv].
  wf_goal; lia.
Qed.

Lemma stepped_well_formed (x f : list F) (a : AaWork F) :
  well_formed a = true -> len x = a_l a -> len f = a_l a ->
  well_formed (stepped x f a) = true.
Proof.
  intros Hwf Hx Hf. unfold stepped. apply set_iter_well_formed.
  - apply updated_well_formed; assumption.
  - unfold well_formed in Hwf. rewrite !andb_true_iff in Hwf.
    assert (0 <= a_iter a) by (apply Z.leb_le; tauto). lia.
Qed.

Lemma after_solve_well_formed (a : AaWork F) (n : Z) :
  well_formed a = true -> well_formed (after_solve a n) = true.
Proof.
  intros Hwf. open_wf Hwf a.
  unfold after_solve, set_work, set_ipiv, set_M.
  cbn [a_type1 a_k a_l a_iter a_x a_f a_g a_g_prev a_y a_s a_d a_Y a_S a_D
       a_M a_work a_ipiv].
  wf_goal; lia.
Qed.

Lemma aa_apply_disabled (f x : list F) (a : AaWork F) :
  a_k a <= 0 -> aa_apply MAX_AA_NRM f x a = Some (0, f, a, []).
Proof.
  intros Hk. unfold aa_apply.
  replace (a_k a <=? 0) with true by (symmetry; apply Z.leb_le; lia).
  reflexivity.
Qed.

Lemma aa_apply_warmup (f x : list F) (a : AaWork F) :
  well_formed a = true -> len x = a_l a -> len f = a_l a ->
  a_iter a = 0 ->
  aa_apply MAX_AA_NRM f x a = Some (0, f, stepped x f a, update_trace a).
Proof.
  intros Hwf Hx Hf Hit. unfold aa_apply.
  rewrite (update_accel_params_eq x f a Hwf Hx Hf).
  assert (Hk : 0 < a_k a).
  { unfold well_formed in Hwf. rewrite !andb_true_iff in Hwf.
    apply Z.ltb_lt. tauto. }
  replace (a_k a <=? 0) with false by (symmetry; apply Z.leb_gt; lia).
  unfold bind, stepped.
  replace (a_iter (updated x f a)) with (a_iter a) by reflexivity.
  rewrite Hit. cbn [Z.eqb Z.add ret]. rewrite app_nil_r. reflexivity.
Qed.

Lemma aa_apply_solve (f x : list F) (a : AaWork F) :
  well_formed a = true -> len x = a_l a -> len f = a_l a ->
  1 <= a_iter a ->
  let a1 := stepped x f a in
  let n := MIN (a_iter a) (a_k a) in
  aa_apply MAX_AA_NRM f x a =
  Some (if solve_rejects MAX_AA_NRM a1 n
        then (-1, f, after_solve a1 n,
              update_trace a ++ solve_calls a1 n
              ++ [Print_error (a_iter a1) (solve_info a1 n)
                    (solve_norm a1 n)])
        else (solve_info a1 n, corrected f a1 n, after_solve a1 n,
              update_trace a ++ solve_calls a1 n
              ++ [Call_gemv "NoTrans" (a_l a) n (a_l a)])).
Proof.
  intros Hwf Hx Hf Hit a1 n. unfold aa_apply.
  rewrite (update_accel_params_eq x f a Hwf Hx Hf).
  assert (Hk : 0 < a_k a).
  { unfold well_formed in Hwf. rewrite !andb_true_iff in Hwf.
    apply Z.ltb_lt. tauto. }
  replace (a_k a <=? 0) with false by (symmetry; apply Z.leb_gt; lia).
  unfold bind.
  replace (a_iter (updated x f a)) with (a_iter a) by reflexivity.
  replace (a_iter a =? 0) with false by (symmetry; apply Z.eqb_neq; lia).
  fold (stepped x f a). fold a1.
  replace (MIN (a_iter a1 - 1) (a_k a1)) with n.
  2:{ unfold n, a1, stepped, set_iter, updated.
      cbn [a_iter a_k]. f_equal. lia. }
  rewrite (solve_eq f a1 n) by (apply stepped_well_formed; assumption).
  destruct (solve_rejects MAX_AA_NRM a1 n); reflexivity.
Qed.

(** *** [aa_init] *)

Lemma calloc_allocated {A : Type} (z : A) (n : Z) (h h' : allocator)
  (p : option (list A)) :
  calloc z n h = (p, h') -> allocated p = true ->
  p = Some (repeat z (Z.to_nat n)) /\ 0 <= n.
Proof.
  unfold calloc. destruct h as [|[|] h0]; intros E Hp;
    inversion E; subst; try discriminate.
  destruct (n <? 0) eqn:En; [discriminate|].
  apply Z.ltb_ge in En. split; [reflexivity | assumption].
Qed.

Lemma aa_init_disabled (l k type1 : Z) (h h' : allocator) (a : AaWork F)
  (evs : list (event F)) :
  k <= 0 -> aa_init l k type1 h = (Some a, evs, h') ->
  a = fresh_disabled l k type1 /\ evs = [].
Proof.
  intros Hk. unfold aa_init.
  destruct (calloc tt 1 h) as [[r|] h0]; [|discriminate].
  replace (k <=? 0) with true by (symmetry; apply Z.leb_le; lia).
  intros E. inversion E. split; reflexivity.
Qed.

Lemma aa_init_enabled (l k type1 : Z) (h h' : allocator) (a : AaWork F)
  (evs : list (event F)) :
  0 < k -> aa_init l k type1 h = (Some a, evs, h') ->
  all_allocated a = true ->
  a = fresh l k type1 /\ 0 <= l /\ evs = [].
Proof.
  intros Hk. unfold aa_init.
  destruct (calloc tt 1 h) as [[r|] h0]; [|discriminate].
  replace (k <=? 0) with false by (symmetry; apply Z.leb_gt; lia).
  repeat match goal with
         | |- context [calloc ?z ?n ?hh] =>
             let E := fresh "E" in
             destruct (calloc z n hh) as [? ?] eqn:E
         end.
  intros Hres Hall. inversion Hres; subst. clear Hres.
  unfold all_allocated in Hall.
  cbn [a_x a_f a_g a_g_prev a_y a_s a_d a_Y a_S a_D a_M a_work a_ipiv]
    in Hall.
  rewrite !andb_true_iff in Hall.
  repeat match goal with
         | E : calloc _ _ _ = (?p, _) |- _ =>
             let Hn := fresh "Hn" in
             apply calloc_allocated in E; [destruct E as [-> Hn] | tauto]
         end.
  repeat split; try assumption.
Qed.

Lemma len_repeat {A : Type} (z : A) (n : Z) :
  0 <= n -> len (repeat z (Z.to_nat n)) = n.
Proof. intros Hn. unfold len. rewrite repeat_length. lia. Qed.

Lemma fresh_well_formed (l k type1 : Z) :
  0 < k -> 0 <= l -> well_formed (fresh l k type1) = true.
Proof.
  intros Hk Hl. unfold fresh, zeros. wf_goal; apply len_repeat; nia.
Qed.

Lemma reachable_well_formed (l k type1 : Z) (a : AaWork F) :
  0 < k -> reachable MAX_AA_NRM l k type1 a ->
  well_formed a = true /\ a_l a = l /\ a_k a = k /\ a_type1 a = type1.
Proof.
  intros Hk Hr. induction Hr as [h a evs h' Hinit Hall
                                 | a f x st f' a' tr Hr IH Hx Hf Hstep].
  - destruct (aa_init_enabled _ _ _ _ _ _ _ Hk Hinit Hall) as (-> & Hl & _).
    split; [apply fresh_well_formed; assumption | repeat split].
  - destruct IH as (Hwf & Hal & Hak & Hat).
    assert (Hit : 0 <= a_iter a).
    { unfold well_formed in Hwf. rewrite !andb_true_iff in Hwf.
      apply Z.leb_le. tauto. }
    rewrite <- Hal in Hx, Hf.
    assert (Hs : well_formed (stepped x f a) = true)
      by (apply stepped_well_formed; assumption).
    destruct (Z.eq_dec (a_iter a) 0) as [H0 | H0].
    + rewrite (aa_apply_warmup f x a Hwf Hx Hf H0) in Hstep.
      inversion Hstep; subst. repeat split; assumption.
    + rewrite (aa_apply_solve f x a Hwf Hx Hf) in Hstep by lia.
      cbv zeta in Hstep.
      destruct (solve_rejects MAX_AA_NRM (stepped x f a)
                  (MIN (a_iter a) (a_k a)));
        inversion Hstep; subst;
        (split; [apply after_solve_well_formed; assumption
                | repeat split; reflexivity]).
Qed.

(** *** Columns of a stored matrix *)

Lemma col_store_same (l : Z) (m v : list F) (j : Z) :
  0 <= j -> len v = l -> j * l + l <= len m ->
  col l (store m (j * l) v) j = v.
Proof.
  intros Hj Hv Hfit. pose proof (len_nonneg v) as Hl. unfold col, store.
  assert (Hpre : List.length (firstn (Z.to_nat (j * l)) m) = Z.to_nat (j * l)).
  { rewrite length_firstn. unfold len in Hfit. nia. }
  rewrite skipn_app, Hpre, Nat.sub_diag, skipn_all2 by lia.
  cbn [skipn app]. rewrite firstn_app.
  replace (Z.to_nat l) with (List.length v) by (unfold len in Hv; lia).
  rewrite firstn_all, Nat.sub_diag. cbn [firstn]. apply app_nil_r.
Qed.

Lemma col_store_other (l : Z) (m v : list F) (j j' : Z) :
  0 <= j -> 0 <= j' -> j <> j' -> len v = l -> j * l + l <= len m ->
  col l (store m (j * l) v) j' = col l m j'.
Proof.
  intros Hj Hj' Hne Hv Hfit. pose proof (len_nonneg v) as Hl.
  unfold col, store.
  assert (Hpre : List.length (firstn (Z.to_nat (j * l)) m) = Z.to_nat (j * l)).
  { rewrite length_firstn. unfold len in Hfit. nia. }
  destruct (Z_lt_le_dec j' j) as [Hlt | Hge].
  - (* a column before the one written *)
    assert (Hb : (Z.to_nat (j' * l) + Z.to_nat l <= Z.to_nat (j * l))%nat)
      by nia.
    rewrite skipn_app, Hpre.
    replace (Z.to_nat (j' * l) - Z.to_nat (j * l))%nat with O by lia.
    cbn [skipn]. rewrite firstn_app, length_skipn, Hpre.
    replace (Z.to_nat l - (Z.to_nat (j * l) - Z.to_nat (j' * l)))%nat
      with O by lia.
    cbn [firstn]. rewrite app_nil_r, skipn_firstn_comm, firstn_firstn.
    f_equal. lia.
  - (* a column after it *)
    assert (Ha : (Z.to_nat (j * l) + Z.to_nat l <= Z.to_nat (j' * l))%nat)
      by nia.
    assert (Hvl : List.length v = Z.to_nat l) by (unfold len in Hv; lia).
    rewrite skipn_app, Hpre, skipn_all2 by lia.
    cbn [app]. rewrite skipn_app, skipn_all2 by lia.
    cbn [app]. rewrite skipn_skipn. do 2 f_equal.
    unfold len. lia.
Qed.

Lemma vsub_nth (u v : list F) (i : nat) :
  (i < List.length u)%nat -> List.length v = List.length u ->
  nth i (vsub u v) fzero = fadd (nth i u fzero) (fmul fneg_one (nth i v fzero)).
Proof.
  unfold vsub, axpy_list. revert v i.
  induction u as [|a u IH]; intros [|b v] i Hi Hlen;
    simpl in *; try lia; try discriminate.
  destruct i as [|i]; [reflexivity|].
  apply IH; lia.
Qed.

(** *** The first call and the disabled instance *)

(** C5.  An instance constructed with k <= 0 is inert: every call of
    [aa_apply] returns status 0 with the caller's f untouched and the state
    unchanged, without a kernel call or a message; the iteration count stays
    0 over any sequence of calls. *)
Theorem disabled_instance_is_inert (l k type1 : Z) (h h' : allocator)
  (a : AaWork F) (evs : list (event F)) (f x : list F)
  (calls : list (list F * list F)) :
  k <= 0 ->
  aa_init l k type1 h = (Some a, evs, h') ->
  aa_apply MAX_AA_NRM f x a = Some (0, f, a, []) /\
  a_iter a = 0 /\
  run MAX_AA_NRM calls a = Some a.
Proof.
  intros Hk Hinit.
  destruct (aa_init_disabled l k type1 h h' a evs Hk Hinit) as [-> _].
  split; [apply aa_apply_disabled; exact Hk|].
  split; [reflexivity|].
  induction calls as [|[x0 f0] rest IH]; [reflexivity|].
  cbn [run]. rewrite aa_apply_disabled by exact Hk. exact IH.
Qed.

(** C4.  The first call on an instance constructed with k > 0 performs the
    history update and nothing else: f is returned as it came, the status is
    0, the stored x and f are the arguments and the count is 1.  The sizes
    l * k and k * k that [aa_init] computed are within the range of
    [aa_int]. *)
Theorem first_step_is_warmup (l k type1 : Z) (h h' : allocator)
  (a : AaWork F) (evs : list (event F)) (f x : list F) :
  0 < k ->
  sizes_fit INT_MAX l k = true ->
  aa_init l k type1 h = (Some a, evs, h') ->
  all_allocated a = true ->
  len x = l -> len f = l ->
  exists a1 a',
    update_accel_params x f a = Some (a1, update_trace a) /\
    a' = set_iter a1 1 /\
    aa_apply MAX_AA_NRM f x a = Some (0, f, a', update_trace a) /\
    a_x a' = Some x /\ a_f a' = Some f /\ a_iter a' = 1.
Proof.
  intros Hk _ Hinit Hall Hx Hf.
  destruct (aa_init_enabled l k type1 h h' a evs Hk Hinit Hall)
    as (-> & Hl & _).
  pose proof (fresh_well_formed l k type1 Hk Hl) as Hwf.
  exists (updated x f (fresh l k type1)), (stepped x f (fresh l k type1)).
  split; [apply update_accel_params_eq; assumption|].
  split; [reflexivity|].
  split; [apply aa_apply_warmup; try assumption; reflexivity|].
  repeat split.
Qed.

(** C10.  After every call on an enabled instance the stored x and f are
    the vectors the caller passed in, whatever [solve] then wrote into the
    caller's f; the residual kept for the next call is x - f of the same
    arguments.  The count and the sizes are within the range of [aa_int]. *)
Theorem snapshots_are_the_raw_arguments (a : AaWork F) (f x : list F) :
  well_formed a = true -> in_range INT_MAX a = true ->
  len x = a_l a -> len f = a_l a ->
  exists st f' a' tr,
    aa_apply MAX_AA_NRM f x a = Some (st, f', a', tr) /\
    a_x a' = Some x /\ a_f a' = Some f /\ a_g_prev a' = Some (vsub x f).
Proof.
  intros Hwf _ Hx Hf.
  assert (Hit : 0 <= a_iter a).
  { unfold well_formed in Hwf. rewrite !andb_true_iff in Hwf.
    apply Z.leb_le. tauto. }
  destruct (Z.eq_dec (a_iter a) 0) as [H0 | H0].
  - do 4 eexists. split; [apply aa_apply_warmup; assumption|].
    repeat split.
  - pose proof (aa_apply_solve f x a Hwf Hx Hf) as E. cbv zeta in E.
    rewrite E by lia.
    destruct (solve_rejects MAX_AA_NRM (stepped x f a)
                (MIN (a_iter a) (a_k a)));
      do 4 eexists; (split; [reflexivity | repeat split]).
Qed.

(** *** The history update *)

Lemma well_formed_bounds (a : AaWork F) :
  well_formed a = true -> 0 < a_k a /\ 0 <= a_l a /\ 0 <= a_iter a.
Proof.
  intros Hwf. unfold well_formed in Hwf. rewrite !andb_true_iff in Hwf.
  repeat split; [apply Z.ltb_lt | apply Z.leb_le | apply Z.leb_le]; tauto.
Qed.

Lemma column_offset_mod (a : AaWork F) :
  well_formed a = true ->
  column_offset a = (a_iter a mod a_k a) * a_l a.
Proof.
  intros Hwf. destruct (well_formed_bounds a Hwf) as (Hk & _ & Hit).
  unfold column_offset. destruct (rem_column _ _ Hit Hk) as [-> _].
  reflexivity.
Qed.

(** Within the range, every integer a call computes is one [aa_int] holds:
    the index [a->iter % a->k], the offset [idx * l], the incremented count
    and the length [MIN(a->iter - 1, a->k)] that [solve] is passed; the model,
    which computes them in [Z], is then the C code. *)
Lemma in_range_covers_the_call (a : AaWork F) :
  well_formed a = true -> in_range INT_MAX a = true ->
  representable INT_MAX (Z.rem (a_iter a) (a_k a)) = true /\
  representable INT_MAX (column_offset a) = true /\
  representable INT_MAX (a_iter a + 1) = true /\
  representable INT_MAX (a_iter a + 1 - 1) = true /\
  representable INT_MAX (MIN (a_iter a + 1 - 1) (a_k a)) = true.
Proof.
  intros Hwf Hr. destruct (well_formed_bounds a Hwf) as (Hk & Hl & Hit).
  destruct (rem_column (a_iter a) (a_k a) Hit Hk) as [_ Hidx].
  unfold in_range, sizes_fit, representable in Hr.
  rewrite !andb_true_iff, !Z.leb_le in Hr.
  unfold column_offset, representable, MIN.
  destruct (Z.ltb_spec (a_iter a + 1 - 1) (a_k a));
    rewrite !andb_true_iff, !Z.leb_le; unfold INT_MAX in *;
    repeat split; try lia; nia.
Qed.

(** Whatever the branch, [aa_apply] on an enabled instance starts with the
    calls of the history update and leaves the vectors and the three history
    matrices as the update made them, with the count incremented. *)
Lemma aa_apply_history (a : AaWork F) (f x : list F) :
  well_formed a = true -> len x = a_l a -> len f = a_l a ->
  exists st f' a' tr',
    aa_apply MAX_AA_NRM f x a = Some (st, f', a', update_trace a ++ tr') /\
    well_formed a' = true /\
    a_type1 a' = a_type1 a /\ a_k a' = a_k a /\ a_l a' = a_l a /\
    a_iter a' = a_iter a + 1 /\
    a_x a' = a_x (updated x f a) /\ a_f a' = a_f (updated x f a) /\
    a_g a' = a_g (updated x f a) /\
    a_g_prev a' = a_g_prev (updated x f a) /\
    a_y a' = a_y (updated x f a) /\ a_s a' = a_s (updated x f a) /\
    a_d a' = a_d (updated x f a) /\ a_Y a' = a_Y (updated x f a) /\
    a_S a' = a_S (updated x f a) /\ a_D a' = a_D (updated x f a) /\
    (a_iter a = 0 -> a' = stepped x f a /\ tr' = []).
Proof.
  intros Hwf Hx Hf.
  destruct (well_formed_bounds a Hwf) as (Hk & Hl & Hit).
  pose proof (stepped_well_formed x f a Hwf Hx Hf) as Hs.
  destruct (Z.eq_dec (a_iter a) 0) as [H0 | H0].
  - exists 0, f, (stepped x f a), []. rewrite app_nil_r.
    split; [apply aa_apply_warmup; assumption|].
    split; [exact Hs|]. repeat split.
  - pose proof (aa_apply_solve f x a Hwf Hx Hf) as E. cbv zeta in E.
    rewrite E by lia.
    destruct (solve_rejects MAX_AA_NRM (stepped x f a)
                (MIN (a_iter a) (a_k a)));
      do 4 eexists; (split; [reflexivity|]);
      (split; [apply after_solve_well_formed; exact Hs|]);
      repeat split; contradiction.
Qed.

(** C2.  On a call on an enabled instance the update computes g = x - f,
    s = x - xPrev, d = f - fPrev and y = g - gPrev, writes y, s and d into
    column iter mod k of Y, S and D, and then calls gemm with m = n = k,
    inner dimension l and beta = 0 on the transpose of the whole of S (type
    1) or Y (otherwise) and the whole of Y; the state [aa_apply] returns
    holds these vectors and matrices.  The count and the sizes are within
    the range of [aa_int]. *)
Theorem history_update_and_gram (a : AaWork F) (f x : list F) :
  well_formed a = true -> in_range INT_MAX a = true ->
  len x = a_l a -> len f = a_l a ->
  exists xp fp gp mY mS mD mM a1,
    a_x a = Some xp /\ a_f a = Some fp /\ a_g_prev a = Some gp /\
    a_Y a = Some mY /\ a_S a = Some mS /\ a_D a = Some mD /\
    a_M a = Some mM /\
    update_accel_params x f a = Some (a1, update_trace a) /\
    let l := a_l a in
    let k := a_k a in
    let idx := a_iter a mod k in
    let g := vsub x f in
    let s := vsub x xp in
    let d := vsub f fp in
    let y := vsub g gp in
    let mY' := store mY (idx * l) y in
    let mS' := store mS (idx * l) s in
    let mD' := store mD (idx * l) d in
    a_g a1 = Some g /\ a_s a1 = Some s /\ a_d a1 = Some d /\
    a_y a1 = Some y /\
    a_Y a1 = Some mY' /\ a_S a1 = Some mS' /\ a_D a1 = Some mD' /\
    col l mY' idx = y /\ col l mS' idx = s /\ col l mD' idx = d /\
    a_M a1 = Some (blas_gemm "Trans" "No" k k l fone
                     (if a_type1 a =? 0 then mY' else mS') l mY' l
                     fzero mM k) /\
    In (Call_gemm "Trans" "No" k k l l l k) (update_trace a) /\
    exists st f' a' tr',
      aa_apply MAX_AA_NRM f x a = Some (st, f', a', update_trace a ++ tr') /\
      a_g a' = Some g /\ a_s a' = Some s /\ a_d a' = Some d /\
      a_y a' = Some y /\
      a_Y a' = Some mY' /\ a_S a' = Some mS' /\ a_D a' = Some mD'.
Proof.
  intros Hwf _ Hx Hf.
  destruct (aa_apply_history a f x Hwf Hx Hf)
    as (st & f' & a' & tr' & Happ & _ & _ & _ & _ & _ & _ & _ & Hg & _ & Hy
        & Hs & Hd & HY & HS & HD & _).
  pose proof (update_accel_params_eq x f a Hwf Hx Hf) as Hupd.
  pose proof (column_offset_mod a Hwf) as Hoff.
  destruct (well_formed_bounds a Hwf) as (Hk & Hl & Hit).
  pose proof (Z.mod_pos_bound (a_iter a) (a_k a) Hk) as Hidx.
  revert Happ Hg Hy Hs Hd HY HS HD Hupd. unfold updated. rewrite Hoff.
  clear Hoff. revert Hidx. generalize (a_iter a mod a_k a) as idx.
  intros idx Hidx. revert Hx Hf.
  open_wf Hwf a. cbn [buf]. intros Hx Hf Happ Hg Hy Hs Hd HY HS HD Hupd.
  do 8 eexists.
  do 7 (split; [reflexivity|]).
  split; [exact Hupd|].
  cbn zeta.
  cbn [a_type1 a_k a_l a_iter a_x a_f a_g a_g_prev a_y a_s a_d a_Y a_S a_D
       a_M a_work a_ipiv].
  do 7 (split; [reflexivity|]).
  split; [apply col_store_same; unfold vsub; try len_tac; try lia; nia|].
  split; [apply col_store_same; unfold vsub; try len_tac; try lia; nia|].
  split; [apply col_store_same; unfold vsub; try len_tac; try lia; nia|].
  split; [reflexivity|].
  split; [unfold update_trace; cbn [a_k a_l]; simpl; tauto|].
  exists st, f', a', tr'. repeat split; assumption.
Qed.

(** *** The circular history *)

Lemma mod_shift_neq (n d k : Z) :
  0 < k -> 0 < d < k -> (n + d) mod k <> n mod k.
Proof.
  intros Hk Hd E.
  pose proof (Z.div_mod n k ltac:(lia)) as E1.
  pose proof (Z.div_mod (n + d) k ltac:(lia)) as E2.
  rewrite E in E2.
  assert (Hq : d = k * ((n + d) / k - n / k)) by lia.
  assert (Hc : (n + d) / k - n / k <= 0 \/ 1 <= (n + d) / k - n / k) by lia.
  destruct Hc; nia.
Qed.

Lemma mod_shift_period (n k : Z) : 0 < k -> (n + k) mod k = n mod k.
Proof.
  intros Hk. replace (n + k) with (n + 1 * k) by lia.
  apply Z.mod_add. lia.
Qed.

(** One call writes column iter mod k of Y, S and D and no other column. *)
Lemma step_columns (a : AaWork F) (f x : list F) :
  well_formed a = true -> len x = a_l a -> len f = a_l a ->
  let l := a_l a in
  let j := a_iter a mod a_k a in
  exists st f' a' tr,
    aa_apply MAX_AA_NRM f x a = Some (st, f', a', tr) /\
    well_formed a' = true /\ a_k a' = a_k a /\ a_l a' = l /\
    a_iter a' = a_iter a + 1 /\
    col l (buf (a_Y a')) j = vsub (vsub x f) (buf (a_g_prev a)) /\
    col l (buf (a_S a')) j = vsub x (buf (a_x a)) /\
    col l (buf (a_D a')) j = vsub f (buf (a_f a)) /\
    forall j', 0 <= j' -> j' <> j ->
      col l (buf (a_Y a')) j' = col l (buf (a_Y a)) j' /\
      col l (buf (a_S a')) j' = col l (buf (a_S a)) j' /\
      col l (buf (a_D a')) j' = col l (buf (a_D a)) j'.
Proof.
  intros Hwf Hx Hf l j.
  destruct (aa_apply_history a f x Hwf Hx Hf)
    as (st & f' & a' & tr' & Happ & Hwf' & _ & Hk' & Hl' & Hit' & _ & _ & _
        & _ & _ & _ & _ & HY & HS & HD & _).
  exists st, f', a', (update_trace a ++ tr').
  split; [exact Happ|]. split; [exact Hwf'|].
  split; [exact Hk'|]. split; [exact Hl'|]. split; [exact Hit'|].
  rewrite HY, HS, HD. clear Happ Hwf' Hk' Hl' Hit' HY HS HD a' st f' tr'.
  pose proof (column_offset_mod a Hwf) as Hoff.
  destruct (well_formed_bounds a Hwf) as (Hk & Hl & Hit).
  pose proof (Z.mod_pos_bound (a_iter a) (a_k a) Hk) as Hidx.
  unfold updated. rewrite Hoff. clear Hoff. subst l j.
  revert Hidx. generalize (a_iter a mod a_k a) as j. intros j Hidx.
  revert Hx Hf. open_wf Hwf a. cbn [buf]. intros Hx Hf.
  assert (Hfit : j * l + l <= l * k) by nia.
  unfold vsub.
  repeat split;
    first [ apply col_store_same | apply col_store_other ];
    try len_tac; try lia.
Qed.

(** A column survives every run of calls none of which has its index. *)
Lemma run_keeps_column (calls : list (list F * list F)) :
  forall (a : AaWork F) (j : Z),
    well_formed a = true ->
    Forall (sized (a_l a)) calls ->
    0 <= j ->
    (forall i, 0 <= i < len calls -> (a_iter a + i) mod a_k a <> j) ->
    exists a',
      run MAX_AA_NRM calls a = Some a' /\
      well_formed a' = true /\ a_k a' = a_k a /\ a_l a' = a_l a /\
      a_iter a' = a_iter a + len calls /\
      col (a_l a) (buf (a_Y a')) j = col (a_l a) (buf (a_Y a)) j /\
      col (a_l a) (buf (a_S a')) j = col (a_l a) (buf (a_S a)) j /\
      col (a_l a) (buf (a_D a')) j = col (a_l a) (buf (a_D a)) j.
Proof.
  induction calls as [|[x f] rest IH]; intros a j Hwf Hsz Hj Hfar.
  - exists a. cbn [run]. unfold len. cbn [List.length Z.of_nat].
    repeat split; try assumption. lia.
  - inversion Hsz as [|c cs [Hx Hf] Hrest]; subst. cbn [fst snd] in Hx, Hf.
    destruct (step_columns a f x Hwf Hx Hf)
      as (st & f' & a1 & tr & Happ & Hwf1 & Hk1 & Hl1 & Hit1 & _ & _ & _
          & Hother).
    assert (Hlen : len ((x, f) :: rest) = len rest + 1)
      by (unfold len; cbn [List.length]; lia).
    pose proof (len_nonneg rest) as Hr.
    destruct (Hother j Hj) as (HY & HS & HD).
    { intros E. apply (Hfar 0); [lia|]. rewrite Z.add_0_r. auto. }
    destruct (IH a1 j Hwf1) as (a' & Hrun & Hwf' & Hk' & Hl' & Hit' & HY'
                                & HS' & HD'); try assumption.
    { rewrite Hl1. exact Hrest. }
    { intros i Hi. rewrite Hit1, Hk1.
      replace (a_iter a + 1 + i) with (a_iter a + (i + 1)) by lia.
      apply Hfar. lia. }
    exists a'. cbn [run]. rewrite Happ.
    split; [exact Hrun|]. split; [exact Hwf'|].
    split; [congruence|]. split; [congruence|]. split; [lia|].
    rewrite Hl1 in HY', HS', HD'.
    repeat split; congruence.
Qed.

(** C6.  The call made with count n writes column n mod k of Y, S and D and
    leaves the other columns alone; the column stays as written over any
    fewer than k further calls, and the k-th further call, made with count
    n + k, is the one that has the same index again.  The sizes and the
    count of every call made, the last one included, are within the range
    of [aa_int]. *)
Theorem history_is_circular (a : AaWork F) (f x : list F)
  (calls : list (list F * list F)) :
  well_formed a = true -> in_range INT_MAX a = true ->
  len x = a_l a -> len f = a_l a ->
  Forall (sized (a_l a)) calls ->
  len calls < a_k a ->
  a_iter a + len calls < INT_MAX ->
  let l := a_l a in
  let k := a_k a in
  let n := a_iter a in
  let j := n mod k in
  exists st f' a1 tr a2,
    aa_apply MAX_AA_NRM f x a = Some (st, f', a1, tr) /\
    col l (buf (a_Y a1)) j = vsub (vsub x f) (buf (a_g_prev a)) /\
    col l (buf (a_S a1)) j = vsub x (buf (a_x a)) /\
    col l (buf (a_D a1)) j = vsub f (buf (a_f a)) /\
    (forall j', 0 <= j' -> j' <> j ->
       col l (buf (a_Y a1)) j' = col l (buf (a_Y a)) j' /\
       col l (buf (a_S a1)) j' = col l (buf (a_S a)) j' /\
       col l (buf (a_D a1)) j' = col l (buf (a_D a)) j') /\
    run MAX_AA_NRM calls a1 = Some a2 /\
    a_iter a2 = n + 1 + len calls /\
    col l (buf (a_Y a2)) j = col l (buf (a_Y a1)) j /\
    col l (buf (a_S a2)) j = col l (buf (a_S a1)) j /\
    col l (buf (a_D a2)) j = col l (buf (a_D a1)) j /\
    (len calls = k - 1 -> a_iter a2 = n + k /\ a_iter a2 mod a_k a2 = j).
Proof.
  intros Hwf _ Hx Hf Hsz Hfew _ l k n j.
  destruct (well_formed_bounds a Hwf) as (Hk & Hl & Hit).
  pose proof (Z.mod_pos_bound n k Hk) as Hj. fold j in Hj.
  pose proof (len_nonneg calls) as Hc.
  destruct (step_columns a f x Hwf Hx Hf)
    as (st & f' & a1 & tr & Happ & Hwf1 & Hk1 & Hl1 & Hit1 & HY & HS & HD
        & Hother).
  destruct (run_keeps_column calls a1 j Hwf1)
    as (a2 & Hrun & Hwf2 & Hk2 & Hl2 & Hit2 & HY2 & HS2 & HD2).
  { rewrite Hl1. exact Hsz. }
  { lia. }
  { intros i Hi. rewrite Hit1, Hk1.
    replace (a_iter a + 1 + i) with (n + (i + 1)) by (unfold n; lia).
    apply mod_shift_neq; fold k; lia. }
  exists st, f', a1, tr, a2.
  rewrite Hl1 in HY2, HS2, HD2.
  repeat (split; [assumption|]).
  split; [unfold n; lia|].
  repeat (split; [assumption|]).
  intros Hlast. split; [unfold n; lia|].
  rewrite Hit2, Hit1, Hk2, Hk1, Hlast. fold n k.
  replace (n + 1 + (k - 1)) with (n + k) by lia.
  apply mod_shift_period. exact Hk.
Qed.

(** *** The guarded solve *)

Lemma MIN_min (a b : Z) : MIN a b = Z.min a b.
Proof. unfold MIN. destruct (Z.ltb_spec a b); lia. Qed.

(** The outcome of a call after the first, read off the test in [solve]. *)
Lemma aa_apply_outcome (a : AaWork F) (f x : list F) :
  well_formed a = true -> len x = a_l a -> len f = a_l a ->
  1 <= a_iter a ->
  let a1 := stepped x f a in
  let n := MIN (a_iter a) (a_k a) in
  exists st f' tr,
    aa_apply MAX_AA_NRM f x a = Some (st, f', after_solve a1 n, tr) /\
    (st < 0 <-> solve_info a1 n < 0 \/ fge (solve_norm a1 n) MAX_AA_NRM = true)
    /\ (st < 0 ->
        st = -1 /\ f' = f /\
        tr = update_trace a ++ solve_calls a1 n
             ++ [Print_error (a_iter a + 1) (solve_info a1 n)
                   (solve_norm a1 n)])
    /\ (0 <= st ->
        st = solve_info a1 n /\ f' = corrected f a1 n /\
        tr = update_trace a ++ solve_calls a1 n
             ++ [Call_gemv "NoTrans" (a_l a) n (a_l a)]).
Proof.
  intros Hwf Hx Hf Hit a1 n.
  pose proof (aa_apply_solve f x a Hwf Hx Hf Hit) as E. cbv zeta in E.
  fold a1 n in E. rewrite E. clear E.
  unfold solve_rejects.
  destruct (solve_info a1 n <? 0) eqn:Ei;
    [apply Z.ltb_lt in Ei | apply Z.ltb_ge in Ei]; cbn [orb].
  - do 3 eexists. split; [reflexivity|].
    split; [split; [tauto | lia]|].
    split; [intros _; repeat split | lia].
  - destruct (fge (solve_norm a1 n) MAX_AA_NRM) eqn:En.
    + do 3 eexists. split; [reflexivity|].
      split; [split; [tauto | lia]|].
      split; [intros _; repeat split | lia].
    + do 3 eexists. split; [reflexivity|].
      split; [split; [lia | intros [H | H]; [lia | discriminate]]|].
      split; [lia | intros _; repeat split].
Qed.

(** C7.  A rejected step is an ordinary step as far as the state goes: the
    caller gets back the f it passed; the columns of Y, S and D written by
    the update of this call, the snapshots of x, f and g and the incremented
    count are all kept (the state is the very one an accepted step would
    leave); and the next call runs the update and the solve again.  The
    sizes and the counts of this call and of the next are within the range
    of [aa_int]. *)
Theorem rejection_is_not_terminal (a : AaWork F) (f x : list F) (st : Z)
  (f' : list F) (a' : AaWork F) (tr : list (event F)) :
  well_formed a = true -> in_range INT_MAX a = true ->
  a_iter a + 1 < INT_MAX ->
  len x = a_l a -> len f = a_l a ->
  1 <= a_iter a ->
  aa_apply MAX_AA_NRM f x a = Some (st, f', a', tr) ->
  st < 0 ->
  f' = f /\
  (exists a1,
     update_accel_params x f a = Some (a1, update_trace a) /\
     a_Y a' = a_Y a1 /\ a_S a' = a_S a1 /\ a_D a' = a_D a1 /\
     a_x a' = a_x a1 /\ a_f a' = a_f a1 /\ a_g_prev a' = a_g_prev a1 /\
     a_iter a' = a_iter a1 + 1 /\
     a' = after_solve (set_iter a1 (a_iter a1 + 1))
            (MIN (a_iter a) (a_k a))) /\
  a_x a' = Some x /\ a_f a' = Some f /\ a_g_prev a' = Some (vsub x f) /\
  a_iter a' = a_iter a + 1 /\
  well_formed a' = true /\
  forall x2 f2 : list F, len x2 = a_l a -> len f2 = a_l a ->
    exists st2 f2' a2 tr2,
      aa_apply MAX_AA_NRM f2 x2 a' = Some (st2, f2', a2, tr2) /\
      In (Call_gesv (MIN (a_iter a') (a_k a')) 1 (a_k a')
            (MIN (a_iter a') (a_k a'))) tr2 /\
      a_iter a2 = a_iter a + 2.
Proof.
  intros Hwf _ _ Hx Hf Hit Happ Hneg.
  destruct (aa_apply_outcome a f x Hwf Hx Hf Hit)
    as (st0 & f0 & tr0 & E & _ & Hrej & _).
  rewrite E in Happ. inversion Happ; subst st0 f0 a' tr0. clear Happ.
  destruct (Hrej Hneg) as (_ & -> & _).
  pose proof (stepped_well_formed x f a Hwf Hx Hf) as Hs.
  pose proof (after_solve_well_formed (stepped x f a)
                (MIN (a_iter a) (a_k a)) Hs) as Hwf'.
  split; [reflexivity|].
  split.
  { exists (updated x f a).
    split; [apply update_accel_params_eq; assumption|].
    repeat split. }
  do 4 (split; [reflexivity|]). split; [exact Hwf'|].
  intros x2 f2 Hx2 Hf2.
  set (a' := after_solve (stepped x f a) (MIN (a_iter a) (a_k a))) in *.
  assert (Hl' : a_l a' = a_l a) by reflexivity.
  assert (Hit' : a_iter a' = a_iter a + 1) by reflexivity.
  rewrite <- Hl' in Hx2, Hf2.
  destruct (aa_apply_outcome a' f2 x2 Hwf' Hx2 Hf2 ltac:(lia))
    as (st2 & f2' & tr2 & E2 & _ & Hrej2 & Hacc2).
  do 4 eexists. split; [exact E2|].
  split; [|cbn [after_solve set_work set_ipiv set_M a_iter stepped set_iter];
           rewrite Hit'; lia].
  destruct (Z_lt_le_dec st2 0) as [H | H].
  - destruct (Hrej2 H) as (_ & _ & ->).
    apply in_or_app. right. apply in_or_app. left.
    unfold solve_calls. cbn [In]. right. left. reflexivity.
  - destruct (Hacc2 H) as (_ & _ & ->).
    apply in_or_app. right. apply in_or_app. left.
    unfold solve_calls. cbn [In]. right. left. reflexivity.
Qed.

(** X13.  A positive [info], by which gesv reports an exactly zero pivot,
    passes the test of [solve]: unless the norm is too large the correction
    is applied and [info] is returned.  The count and the sizes are within
    the range of [aa_int]. *)
Lemma positive_info_is_accepted (a : AaWork F) (f x : list F) :
  well_formed a = true -> in_range INT_MAX a = true ->
  len x = a_l a -> len f = a_l a ->
  1 <= a_iter a ->
  let a1 := stepped x f a in
  let n := MIN (a_iter a) (a_k a) in
  0 < solve_info a1 n ->
  fge (solve_norm a1 n) MAX_AA_NRM = false ->
  exists a' tr,
    aa_apply MAX_AA_NRM f x a
    = Some (solve_info a1 n, corrected f a1 n, a', tr).
Proof.
  intros Hwf _ Hx Hf Hit a1 n Hinfo Hnrm.
  destruct (aa_apply_outcome a f x Hwf Hx Hf Hit)
    as (st & f' & tr & E & Hneg & _ & Hacc).
  fold a1 n in E, Hneg, Hacc.
  assert (Hst : 0 <= st).
  { destruct (Z_lt_le_dec st 0) as [H | H]; [|exact H].
    apply Hneg in H. destruct H as [H | H]; [lia | congruence]. }
  destruct (Hacc Hst) as (-> & -> & _).
  do 2 eexists. exact E.
Qed.

(** Once the record is obtained [aa_init] returns it, whatever becomes of
    the requests for the buffers, and prints nothing. *)
Lemma aa_init_tests_the_record_only (l k type1 : Z) (h : allocator) :
  exists (a : AaWork F) h',
    aa_init l k type1 (true :: h) = (Some a, [], h').
Proof.
  unfold aa_init. cbn [calloc Z.ltb Z.compare].
  destruct (k <=? 0); [do 2 eexists; reflexivity|].
  repeat match goal with
         | |- context [calloc ?z ?n ?hh] =>
             destruct (calloc z n hh) as [? ?]
         end.
  do 2 eexists. reflexivity.
Qed.

(** C3, as the code has it.  On a call after the first, gesv is called
    once, with order n = min(iter, k), one right-hand side, the leading
    dimension k for M and n for the right-hand side: it factors the leading
    n x n block of M.  gemm builds the whole k x k matrix and nrm2 runs over
    k entries of the workspace.  The count and the sizes are within the
    range of [aa_int]. *)
Theorem solve_has_the_valid_length (a : AaWork F) (f x : list F) :
  well_formed a = true -> in_range INT_MAX a = true ->
  len x = a_l a -> len f = a_l a ->
  1 <= a_iter a ->
  let n := Z.min (a_iter a) (a_k a) in
  exists st f' a' tr,
    aa_apply MAX_AA_NRM f x a = Some (st, f', a', tr) /\
    (forall n' nrhs lda ldb,
       In (Call_gesv n' nrhs lda ldb) tr <->
       n' = n /\ nrhs = 1 /\ lda = a_k a /\ ldb = n) /\
    In (Call_gemv "Trans" (a_l a) n (a_l a)) tr /\
    In (Call_gemm "Trans" "No" (a_k a) (a_k a) (a_l a) (a_l a) (a_l a)
          (a_k a)) tr /\
    In (Call_nrm2 (a_k a)) tr /\
    (n = a_k a <-> a_k a <= a_iter a).
Proof.
  intros Hwf _ Hx Hf Hit n.
  destruct (aa_apply_outcome a f x Hwf Hx Hf Hit)
    as (st & f' & tr & E & _ & Hrej & Hacc).
  rewrite MIN_min in E, Hrej, Hacc. fold n in E, Hrej, Hacc.
  do 4 eexists. split; [exact E|].
  assert (Htr : exists e,
             tr = update_trace a ++ solve_calls (stepped x f a) n ++ [e] /\
             forall n' nrhs lda ldb, e <> Call_gesv n' nrhs lda ldb).
  { destruct (Z_lt_le_dec st 0) as [H | H].
    - destruct (Hrej H) as (_ & _ & ->). eexists. split; [reflexivity|].
      intros; discriminate.
    - destruct (Hacc H) as (_ & _ & ->). eexists. split; [reflexivity|].
      intros; discriminate. }
  destruct Htr as (e & -> & He).
  unfold update_trace, solve_calls.
  cbn [stepped set_iter updated a_k a_l app In].
  split.
  { intros n' nrhs lda ldb. split.
    - intros H.
      repeat (destruct H as [H | H]; try discriminate);
        [injection H as <- <- <- <-; repeat split
        | apply He in H; contradiction
        | contradiction].
    - intros (-> & -> & -> & ->). do 6 right. left. reflexivity. }
  split; [do 5 right; left; reflexivity|].
  split; [do 4 right; left; reflexivity|].
  split; [do 7 right; left; reflexivity|].
  unfold n. lia.
Qed.

(** *** D = S - Y, in exact arithmetic *)

Lemma firstn_repeat {A : Type} (z : A) (n m : nat) :
  firstn n (repeat z m) = repeat z (Nat.min n m).
Proof.
  revert m. induction n as [|n IH]; intros [|m]; try reflexivity.
  cbn [repeat firstn Nat.min]. rewrite IH. reflexivity.
Qed.

Lemma skipn_repeat {A : Type} (z : A) (n m : nat) :
  skipn n (repeat z m) = repeat z (m - n).
Proof.
  revert m. induction n as [|n IH]; intros [|m]; try reflexivity.
  cbn [repeat skipn Nat.sub]. apply IH.
Qed.

Lemma col_zeros (l k j : Z) :
  0 <= l -> 0 <= j < k -> col l (zeros (l * k)) j = zeros l.
Proof.
  intros Hl Hj. unfold col, zeros.
  rewrite skipn_repeat, firstn_repeat. f_equal. nia.
Qed.

Lemma len_vminus (u v : list F) : len u = len v -> len (vminus u v) = len u.
Proof.
  unfold len, vminus. intros H. rewrite length_map, length_combine. lia.
Qed.

Lemma vminus_app (u1 u2 v1 v2 : list F) :
  List.length u1 = List.length v1 ->
  vminus (u1 ++ u2) (v1 ++ v2) = vminus u1 v1 ++ vminus u2 v2.
Proof.
  unfold vminus. revert v1.
  induction u1 as [|a u1 IH]; intros [|b v1] H; try discriminate.
  - reflexivity.
  - cbn [app combine map]. f_equal. apply IH. cbn in H. lia.
Qed.

Lemma vminus_firstn (n : nat) (u v : list F) :
  vminus (firstn n u) (firstn n v) = firstn n (vminus u v).
Proof. unfold vminus. rewrite <- combine_firstn, firstn_map. reflexivity. Qed.

Lemma vminus_skipn (n : nat) (u v : list F) :
  vminus (skipn n u) (skipn n v) = skipn n (vminus u v).
Proof.
  unfold vminus. revert u v.
  induction n as [|n IH]; intros u v; [reflexivity|].
  destruct u as [|a u]; [reflexivity|].
  destruct v as [|b v]; [cbn [skipn]; rewrite combine_nil; reflexivity|].
  cbn [skipn combine map]. apply IH.
Qed.

Lemma vminus_store (mS mY s y : list F) (off : Z) :
  len mS = len mY -> len s = len y -> 0 <= off ->
  off + len s <= len mS ->
  vminus (store mS off s) (store mY off y)
  = store (vminus mS mY) off (vminus s y).
Proof.
  intros Hm Hv Hoff Hfit. unfold store.
  rewrite vminus_app.
  2:{ rewrite !length_firstn. unfold len in *. lia. }
  rewrite vminus_app by (unfold len in Hv; lia).
  rewrite vminus_firstn, len_vminus, <- Hv, vminus_skipn by exact Hv.
  reflexivity.
Qed.

Section Exact.

(** The scalars form a ring: sums, products and differences are exact. *)
Hypothesis scalar_ring :
  ring_theory fzero fone fadd fmul fsub fopp (@eq F).

Add Ring scalar_ring_inst : scalar_ring.

Ltac fold_opp :=
  repeat match goal with
         | |- context [fmul fneg_one ?v] =>
             change (fmul fneg_one v) with (fopp v)
         end.

Lemma vminus_zeros (n : Z) : vminus (zeros n) (zeros n) = zeros n.
Proof.
  unfold vminus, zeros. induction (Z.to_nat n) as [|m IH]; [reflexivity|].
  cbn [repeat combine map fst snd]. rewrite IH. f_equal. ring.
Qed.

Lemma vsub_zeros (n : Z) : vsub (zeros n) (zeros n) = zeros n.
Proof.
  unfold vsub, axpy_list, zeros.
  induction (Z.to_nat n) as [|m IH]; [reflexivity|].
  cbn [repeat combine map fst snd]. rewrite IH. f_equal. fold_opp. ring.
Qed.

(** d = s - y for the vectors of one update, when the residual kept from
    the call before is xPrev - fPrev. *)
Lemma difference_identity (x : list F) :
  forall f xp fp : list F,
    List.length f = List.length x -> List.length xp = List.length x ->
    List.length fp = List.length x ->
    vminus (vsub x xp) (vsub (vsub x f) (vsub xp fp)) = vsub f fp.
Proof.
  unfold vminus, vsub, axpy_list.
  induction x as [|a x IH]; intros [|b f] [|c xp] [|d fp] Hf Hxp Hfp;
    try discriminate; [reflexivity|].
  cbn [combine map fst snd]. f_equal; [fold_opp; ring|].
  apply IH; cbn in *; lia.
Qed.

(** The invariant behind C9. *)
Lemma history_invariant (l k type1 : Z) (a : AaWork F) :
  0 < k -> reachable MAX_AA_NRM l k type1 a ->
  vminus (buf (a_S a)) (buf (a_Y a)) = buf (a_D a) /\
  buf (a_g_prev a) = vsub (buf (a_x a)) (buf (a_f a)) /\
  forall j, a_iter a <= j < k ->
    col l (buf (a_Y a)) j = zeros l /\ col l (buf (a_S a)) j = zeros l /\
    col l (buf (a_D a)) j = zeros l.
Proof.
  intros Hk Hr.
  induction Hr as [h a evs h' Hinit Hall
                  | a f x st f' a' tr Hr IH Hx Hf Hstep].
  - destruct (aa_init_enabled _ _ _ _ _ _ _ Hk Hinit Hall) as (-> & Hl & _).
    cbn [fresh buf a_S a_Y a_D a_g_prev a_x a_f a_iter].
    split; [apply vminus_zeros|]. split; [symmetry; apply vsub_zeros|].
    intros j Hj. repeat split; apply col_zeros; lia.
  - destruct IH as (HD & Hg & Hz).
    destruct (reachable_well_formed l k type1 a Hk Hr)
      as (Hwf & Hal & Hak & _).
    rewrite <- Hal in Hx, Hf.
    destruct (aa_apply_history a f x Hwf Hx Hf)
      as (st0 & f0 & a0 & tr0 & Happ & _ & _ & _ & _ & Hit' & Hx' & Hf'
          & _ & Hg' & _ & _ & _ & HY' & HS' & HD' & _).
    rewrite Happ in Hstep. inversion Hstep; subst st0 f0 a0 tr. clear Hstep.
    rewrite HY', HS', HD', Hg', Hx', Hf', Hit'. clear HY' HS' HD' Hg' Hx' Hf'.
    destruct (well_formed_bounds a Hwf) as (Hk' & Hl & Hit).
    pose proof (column_offset_mod a Hwf) as Hoff.
    pose proof (Z.mod_pos_bound (a_iter a) (a_k a) Hk') as Hidx.
    unfold updated. rewrite Hoff. clear Hoff.
    cbn [buf a_S a_Y a_D a_g_prev a_x a_f].
    revert Hidx Hz. generalize (Z.mod_small (a_iter a) (a_k a)).
    generalize (a_iter a mod a_k a) as i. intros i Hsmall Hidx Hz.
    clear Hr. subst l k. revert HD Hg Hz Hx Hf Hsmall Hidx.
    open_wf Hwf a. cbn [buf]. intros HD Hg Hz Hx Hf Hsmall Hidx.
    split; [|split; [reflexivity|]].
    + rewrite vminus_store; unfold vsub; try len_tac; try nia.
      * rewrite HD. f_equal. fold (vsub x x9). rewrite Hg.
        apply difference_identity; unfold len in *; lia.
      * repeat rewrite len_axpy_list; try len_tac. nia.
    + intros j Hj.
      assert (Hi : i = it) by (apply Hsmall; lia).
      destruct (Hz j ltac:(lia)) as (HzY & HzS & HzD).
      split; [|split];
        [rewrite <- HzY | rewrite <- HzS | rewrite <- HzD];
        apply col_store_other; unfold vsub; try len_tac; try lia; nia.
Qed.


End Exact.

(** *** Further properties of the code *)

Lemma run_well_formed (calls : list (list F * list F)) :
  forall a : AaWork F,
    well_formed a = true ->
    Forall (sized (a_l a)) calls ->
    exists a',
      run MAX_AA_NRM calls a = Some a' /\
      well_formed a' = true /\
      a_iter a' = a_iter a + len calls /\
      a_l a' = a_l a /\ a_k a' = a_k a /\ a_type1 a' = a_type1 a.
Proof.
  induction calls as [|[x f] rest IH]; intros a Hwf Hsz.
  - exists a. cbn [run]. unfold len. cbn [List.length Z.of_nat].
    repeat split; try assumption. lia.
  - inversion Hsz as [|c cs [Hx Hf] Hrest]; subst. cbn [fst snd] in Hx, Hf.
    destruct (aa_apply_history a f x Hwf Hx Hf)
      as (st & f' & a1 & tr & Happ & Hwf1 & Ht1 & Hk1 & Hl1 & Hit1 & _).
    destruct (IH a1 Hwf1) as (a' & Hrun & Hwf' & Hit' & Hl' & Hk' & Ht').
    { rewrite Hl1. exact Hrest. }
    exists a'. cbn [run]. rewrite Happ.
    split; [exact Hrun|]. split; [exact Hwf'|].
    assert (Hlen : len ((x, f) :: rest) = len rest + 1)
      by (unfold len; cbn [List.length]; lia).
    repeat split; try congruence. lia.
Qed.

(** X1.  The copies and vector updates made on vectors of the right length
    never leave the buffers: from a well-formed state every call of a host
    loop returns, the state stays well-formed, the count grows by one per
    call, and l, k and type1 are never changed.  The sizes, and the count
    the loop ends with, are within the range of [aa_int]; the kernels are
    trusted with the sizes they are passed. *)
Theorem run_is_memory_safe (calls : list (list F * list F))
  (a : AaWork F) :
  well_formed a = true ->
  sizes_fit INT_MAX (a_l a) (a_k a) = true ->
  a_iter a + len calls <= INT_MAX ->
  Forall (sized (a_l a)) calls ->
  exists a',
    run MAX_AA_NRM calls a = Some a' /\
    well_formed a' = true /\
    a_iter a' = a_iter a + len calls /\
    a_l a' = a_l a /\ a_k a' = a_k a /\ a_type1 a' = a_type1 a.
Proof. intros Hwf _ _ Hsz. apply run_well_formed; assumption. Qed.

(** X2.  The status of a call is -1 or non-negative.  It is negative
    exactly when the error line is printed, and then the caller's f comes
    back as it was passed; on a disabled instance and on the first call the
    status is 0 and f is untouched. *)
Theorem status_and_diagnostic (a : AaWork F) (f x : list F) (st : Z)
  (f' : list F) (a' : AaWork F) (tr : list (event F)) :
  (well_formed a = true /\ len x = a_l a /\ len f = a_l a) \/ a_k a <= 0 ->
  aa_apply MAX_AA_NRM f x a = Some (st, f', a', tr) ->
  (st = -1 \/ 0 <= st) /\
  (st < 0 <-> exists i info nrm, In (Print_error i info nrm) tr) /\
  (st < 0 -> f' = f) /\
  (a_k a <= 0 \/ a_iter a = 0 -> st = 0 /\ f' = f).
Proof.
  intros [(Hwf & Hx & Hf) | Hk] Happ.
  - destruct (well_formed_bounds a Hwf) as (Hk & _ & Hit).
    destruct (Z.eq_dec (a_iter a) 0) as [H0 | H0].
    + rewrite (aa_apply_warmup f x a Hwf Hx Hf H0) in Happ.
      inversion Happ; subst. clear Happ.
      split; [right; lia|]. split.
      { split; [lia|]. intros (i & info & nrm & Hin).
        unfold update_trace in Hin. cbn [In] in Hin.
        repeat (destruct Hin as [Hin | Hin]; try discriminate).
        contradiction. }
      split; [reflexivity|]. intros _. split; reflexivity.
    + destruct (aa_apply_outcome a f x Hwf Hx Hf ltac:(lia))
        as (st0 & f0 & tr0 & E & _ & Hrej & Hacc).
      rewrite E in Happ. inversion Happ; subst st0 f0 a' tr0. clear Happ.
      destruct (Z_lt_le_dec st 0) as [Hneg | Hpos].
      * destruct (Hrej Hneg) as (-> & -> & ->).
        split; [left; reflexivity|]. split.
        { split; [|lia]. intros _. do 3 eexists.
          apply in_or_app. right. apply in_or_app. right.
          left. reflexivity. }
        split; [reflexivity|]. intros [H | H]; [lia | contradiction].
      * destruct (Hacc Hpos) as (_ & _ & ->).
        split; [right; exact Hpos|]. split.
        { split; [lia|]. intros (i & info & nrm & Hin).
          unfold update_trace, solve_calls in Hin.
          cbn [In app] in Hin.
          repeat (destruct Hin as [Hin | Hin]; try discriminate).
          contradiction. }
        split; [lia|]. intros [H | H]; [lia | contradiction].
  - rewrite (aa_apply_disabled f x a Hk) in Happ.
    inversion Happ; subst. clear Happ.
    split; [right; lia|]. split.
    { split; [lia|]. intros (i & info & nrm & Hin). destruct Hin. }
    split; [reflexivity|]. intros _. split; reflexivity.
Qed.

(** X3.  Columns of Y, S and D that no call has written yet are zero, in
    any arithmetic: after n calls on a new instance the columns of index n
    and above are as [aa_init] left them.  The sizes [aa_init] computed and
    the count n are within the range of [aa_int]. *)
Theorem unwritten_columns_are_zero (rows depth type1 : Z) (a : AaWork F) :
  0 < depth -> sizes_fit INT_MAX rows depth = true ->
  reachable MAX_AA_NRM rows depth type1 a ->
  a_iter a <= INT_MAX ->
  forall j, a_iter a <= j < depth ->
    col rows (buf (a_Y a)) j = zeros rows /\
    col rows (buf (a_S a)) j = zeros rows /\
    col rows (buf (a_D a)) j = zeros rows.
Proof.
  intros Hk _ Hr _.
  induction Hr as [h a evs h' Hinit Hall
                  | a f x st f' a' tr Hr IH Hx Hf Hstep].
  - destruct (aa_init_enabled _ _ _ _ _ _ _ Hk Hinit Hall) as (-> & Hl & _).
    cbn [fresh buf a_S a_Y a_D a_iter].
    intros j Hj. repeat split; apply col_zeros; lia.
  - destruct (reachable_well_formed rows depth type1 a Hk Hr)
      as (Hwf & Hal & Hak & _).
    rewrite <- Hal in Hx, Hf.
    destruct (step_columns a f x Hwf Hx Hf)
      as (st0 & f0 & a0 & tr0 & Happ & _ & _ & _ & Hit' & _ & _ & _
          & Hother).
    rewrite Happ in Hstep. inversion Hstep; subst st0 f0 a0 tr0.
    clear Hstep Happ.
    destruct (well_formed_bounds a Hwf) as (_ & _ & Hit).
    intros j Hj. rewrite Hit' in Hj.
    destruct (Hother j ltac:(lia)) as (HY & HS & HD).
    { rewrite Hak, Z.mod_small by lia. lia. }
    rewrite <- Hal. rewrite HY, HS, HD. rewrite Hal. apply IH. lia.
Qed.

(** *** [aa_init] and [aa_finish] *)

Lemma free_if_cons {A : Type} (b : block) (p : option A) (L R : list block) :
  L = R -> free_if b p ++ L = if allocated p then b :: R else R.
Proof. intros ->. destruct p; reflexivity. Qed.

Lemma aa_finish_filter (a : AaWork F) :
  aa_finish (Some a) = filter (held a) all_blocks.
Proof.
  unfold aa_finish, all_blocks. cbn [filter held].
  repeat apply free_if_cons. reflexivity.
Qed.

Lemma all_blocks_NoDup : NoDup all_blocks.
Proof.
  unfold all_blocks.
  repeat (constructor; [cbn [In]; intuition discriminate|]). constructor.
Qed.

Lemma all_blocks_complete (b : block) : In b all_blocks.
Proof. destruct b; cbn; tauto. Qed.

(** X4.  [aa_finish] frees exactly the blocks the instance holds, each of
    them once, the record last; a null buffer is skipped and a null handle
    frees nothing. *)
Theorem aa_finish_frees_what_is_held (a : AaWork F) :
  NoDup (aa_finish (Some a)) /\
  (forall b, In b (aa_finish (Some a)) <-> held a b = true) /\
  (exists pre, aa_finish (Some a) = pre ++ [Blk_record]
               /\ ~ In Blk_record pre) /\
  aa_finish (@None (AaWork F)) = [].
Proof.
  split; [rewrite aa_finish_filter; apply NoDup_filter, all_blocks_NoDup|].
  split.
  { intros b. rewrite aa_finish_filter, filter_In.
    pose proof (all_blocks_complete b). tauto. }
  split; [|reflexivity].
  exists (filter (held a) (removelast all_blocks)).
  split.
  - rewrite aa_finish_filter.
    change all_blocks with (removelast all_blocks ++ [Blk_record]) at 1.
    rewrite filter_app. reflexivity.
  - rewrite filter_In. cbn. intuition discriminate.
Qed.

Lemma well_formed_holds_all (a : AaWork F) :
  well_formed a = true -> aa_finish (Some a) = all_blocks.
Proof. intros Hwf. open_wf Hwf a. reflexivity. Qed.

(** X5.  Construct, iterate, release: when [aa_init] obtained every buffer
    of an enabled instance, then after any number of calls on vectors of
    length l [aa_finish] frees the thirteen buffers and the record, each
    once.  The sizes [aa_init] computed and the number of calls are within
    the range of [aa_int]. *)
Theorem release_after_any_run (l k type1 : Z) (h h' : allocator)
  (a : AaWork F) (evs : list (event F)) (calls : list (list F * list F)) :
  0 < k ->
  sizes_fit INT_MAX l k = true ->
  aa_init l k type1 h = (Some a, evs, h') ->
  all_allocated a = true ->
  Forall (sized l) calls ->
  len calls <= INT_MAX ->
  exists a',
    run MAX_AA_NRM calls a = Some a' /\
    aa_finish (Some a') = all_blocks /\
    NoDup (aa_finish (Some a')).
Proof.
  intros Hk _ Hinit Hall Hsz _.
  destruct (aa_init_enabled l k type1 h h' a evs Hk Hinit Hall)
    as (-> & Hl & _).
  pose proof (fresh_well_formed l k type1 Hk Hl) as Hwf.
  destruct (run_well_formed calls (fresh l k type1) Hwf Hsz)
    as (a' & Hrun & Hwf' & _).
  exists a'. split; [exact Hrun|].
  rewrite (well_formed_holds_all a' Hwf').
  split; [reflexivity | apply all_blocks_NoDup].
Qed.

(** X6.  With k <= 0 [aa_init] makes one request, for the record, and no
    other; the instance holds no buffer, any calls leave it as it is, and
    [aa_finish] frees the record alone. *)
Theorem disabled_instance_life_cycle (l k type1 : Z) (h : allocator)
  (calls : list (list F * list F)) :
  k <= 0 ->
  aa_init l k type1 (true :: h) = (Some (fresh_disabled l k type1), [], h) /\
  run MAX_AA_NRM calls (fresh_disabled l k type1)
  = Some (fresh_disabled l k type1) /\
  aa_finish (Some (fresh_disabled (F:=F) l k type1)) = [Blk_record].
Proof.
  intros Hk. split.
  - unfold aa_init. cbn [calloc Z.ltb Z.compare].
    replace (k <=? 0) with true by (symmetry; apply Z.leb_le; lia).
    reflexivity.
  - split; [|reflexivity].
    induction calls as [|[x0 f0] rest IH]; [reflexivity|].
    cbn [run]. rewrite aa_apply_disabled by exact Hk. exact IH.
Qed.

(** X7.  [aa_init] returns the null handle exactly when the request for the
    record is refused, and prints its message exactly then; the outcome of
    the thirteen other requests does not show in what it returns. *)
Theorem aa_init_null_iff_record_refused (l k type1 : Z) (h : allocator) :
  forall (r : option (AaWork F)) evs h',
    aa_init l k type1 h = (r, evs, h') ->
    (r = None <-> hd false h = false) /\
    (r = None -> evs = [Print_alloc_failed]) /\
    (r <> None -> evs = []).
Proof.
  intros r evs h'. unfold aa_init.
  destruct h as [|[|] h0]; cbn [calloc hd Z.ltb Z.compare].
  - intros E. inversion E; subst. repeat split; congruence.
  - destruct (k <=? 0).
    + intros E. inversion E; subst.
      repeat split; try congruence; discriminate.
    + repeat match goal with
             | |- context [calloc ?z ?n ?hh] =>
                 destruct (calloc z n hh) as [? ?]
             end.
      intros E. inversion E; subst.
      repeat split; try congruence; discriminate.
  - intros E. inversion E; subst. repeat split; congruence.
Qed.

(** X8.  When the fourteen requests are satisfied, l is not negative and
    the sizes l k and k k are within the range of [aa_int], [aa_init] with
    k > 0 makes exactly these fourteen and returns an instance with count 0
    whose buffers are filled with zeros: seven of length l, three of l k,
    one of k k, and the workspace and pivots of length k. *)
Theorem aa_init_all_granted (l k type1 : Z) (h : allocator) :
  0 < k -> 0 <= l -> sizes_fit INT_MAX l k = true ->
  exists a : AaWork F,
    aa_init l k type1 (repeat true 14 ++ h) = (Some a, [], h) /\
    a_type1 a = type1 /\ a_k a = k /\ a_l a = l /\ a_iter a = 0 /\
    a_x a = Some (zeros l) /\ a_f a = Some (zeros l) /\
    a_g a = Some (zeros l) /\ a_g_prev a = Some (zeros l) /\
    a_y a = Some (zeros l) /\ a_s a = Some (zeros l) /\
    a_d a = Some (zeros l) /\
    a_Y a = Some (zeros (l * k)) /\ a_S a = Some (zeros (l * k)) /\
    a_D a = Some (zeros (l * k)) /\ a_M a = Some (zeros (k * k)) /\
    a_work a = Some (zeros k) /\ a_ipiv a = Some (repeat 0 (Z.to_nat k)) /\
    len (zeros l) = l /\ len (zeros (l * k)) = l * k /\
    len (zeros (k * k)) = k * k /\ len (zeros k) = k /\
    well_formed a = true.
Proof.
  intros Hk Hl _. exists (fresh l k type1).
  split.
  - unfold aa_init. cbn [repeat app calloc Z.ltb Z.compare].
    replace (k <=? 0) with false by (symmetry; apply Z.leb_gt; lia).
    replace (l <? 0) with false by (symmetry; apply Z.ltb_ge; lia).
    replace (l * k <? 0) with false by (symmetry; apply Z.ltb_ge; nia).
    replace (k * k <? 0) with false by (symmetry; apply Z.ltb_ge; nia).
    replace (k <? 0) with false by (symmetry; apply Z.ltb_ge; lia).
    reflexivity.
  - do 17 (split; [reflexivity|]).
    unfold zeros.
    split; [apply len_repeat; lia|]. split; [apply len_repeat; nia|].
    split; [apply len_repeat; nia|]. split; [apply len_repeat; lia|].
    apply fresh_well_formed; assumption.
Qed.

Lemma calloc_uses {A : Type} (z : A) (n : Z) (h h' : allocator)
  (p : option (list A)) :
  0 <= n -> calloc z n h = (p, h') ->
  exists used,
    h = used ++ h' /\ granted used = if allocated p then 1%nat else 0%nat.
Proof.
  intros Hn. unfold calloc.
  replace (n <? 0) with false by (symmetry; apply Z.ltb_ge; lia).
  destruct h as [|[|] h0]; intros E; inversion E; subst.
  - exists []. split; reflexivity.
  - exists [true]. split; reflexivity.
  - exists [false]. split; reflexivity.
Qed.

Lemma length_free_if {A : Type} (b : block) (p : option A) :
  List.length (free_if b p) = if allocated p then 1%nat else 0%nat.
Proof. destruct p; reflexivity. Qed.

Lemma granted_app (u v : allocator) : granted (u ++ v) = (granted u + granted v)%nat.
Proof. unfold granted. apply count_occ_app. Qed.

(** X9.  Nothing leaks and nothing is freed that was not obtained: whatever
    the allocator does, [aa_finish] applied to what [aa_init] returned makes
    as many calls of [free] as [aa_init] had requests satisfied (none when
    the handle is null).  The count l must not be negative. *)
Theorem aa_finish_releases_what_aa_init_obtained (l k type1 : Z)
  (h h' : allocator) (r : option (AaWork F)) (evs : list (event F)) :
  0 <= l ->
  aa_init l k type1 h = (r, evs, h') ->
  exists used,
    h = used ++ h' /\ List.length (aa_finish r) = granted used.
Proof.
  intros Hl. unfold aa_init.
  destruct (calloc tt 1 h) as [r0 h0] eqn:E0.
  apply calloc_uses in E0; [|lia]. destruct E0 as (u0 & Eh & Hu0).
  destruct r0 as [r0|]; cbn [allocated] in Hu0.
  2:{ intros E. inversion E; subst. exists u0. split; [reflexivity|].
      cbn [aa_finish List.length]. lia. }
  destruct (k <=? 0) eqn:Ek.
  { intros E. inversion E; subst. exists u0. split; [reflexivity|].
    cbn. lia. }
  apply Z.leb_gt in Ek.
  repeat match goal with
         | |- context [calloc ?z ?n ?hh] =>
             let E := fresh "E" in
             let u := fresh "u" in
             let Hh := fresh "Hh" in
             let Hu := fresh "Hu" in
             destruct (calloc z n hh) as [? ?] eqn:E;
             apply calloc_uses in E; [|nia];
             destruct E as (u & Hh & Hu)
         end.
  intros E. inversion E; subst. clear E.
  eexists. split.
  - rewrite !app_assoc. reflexivity.
  - unfold aa_finish.
    cbn [a_x a_f a_g a_g_prev a_y a_s a_d a_Y a_S a_D a_M a_work a_ipiv].
    rewrite !length_app, !length_free_if, !granted_app.
    cbn [List.length]. lia.
Qed.

(** *** What a call needs *)

Lemma bind_none_r {A B : Type} (m : R F A) (k : A -> R F B) :
  (forall v, k v = None) -> bind m k = None.
Proof.
  intros H. unfold bind. destruct m as [[v t]|]; [rewrite H|]; reflexivity.
Qed.

Lemma memcpy_short (dst : list F) (off : Z) (src : list F) (n : Z) :
  len src < n -> memcpy dst off src n = None.
Proof.
  intros H. unfold memcpy.
  replace (n <=? len src) with false by (symmetry; apply Z.leb_gt; lia).
  rewrite andb_false_r. reflexivity.
Qed.

Lemma set_m_null (a : AaWork F) : a_M a = None -> set_m a = None.
Proof.
  intros H. unfold set_m.
  destruct (anchor a); [|reflexivity].
  destruct (a_Y a); [|reflexivity].
  rewrite H. reflexivity.
Qed.

Ltac to_none :=
  repeat first
    [ reflexivity
    | rewrite memcpy_short by lia; reflexivity
    | rewrite set_m_null by reflexivity; reflexivity
    | apply bind_none_r; intro;
      cbn [a_type1 a_k a_l a_iter a_x a_f a_g a_g_prev a_y a_s a_d a_Y a_S
           a_D a_M a_work a_ipiv set_iter set_x set_f set_g set_g_prev
           set_y set_s set_d set_Y set_S set_D set_M set_work set_ipiv] ].

Lemma update_accel_params_null (x f : list F) (a : AaWork F) :
  (allocated (a_x a) && allocated (a_f a) && allocated (a_g a)
   && allocated (a_g_prev a) && allocated (a_y a) && allocated (a_s a)
   && allocated (a_d a) && allocated (a_Y a) && allocated (a_S a)
   && allocated (a_D a) && allocated (a_M a)) = false ->
  update_accel_params x f a = None.
Proof.
  unfold update_accel_params.
  destruct (a_k a =? 0); [reflexivity|].
  destruct a as [t k l it bx bf bg bgp by_ bs bd bY bS bD bM bw bi].
  cbn [a_type1 a_k a_l a_iter a_x a_f a_g a_g_prev a_y a_s a_d a_Y a_S a_D
       a_M a_work a_ipiv].
  intros H.
  destruct bg as [g0|]; [|reflexivity].
  destruct bs as [s0|]; [|to_none].
  destruct bd as [d0|]; [|to_none].
  destruct bx as [xp|]; [|to_none].
  destruct bf as [fp|]; [|to_none].
  destruct by_ as [y0|]; [|to_none].
  destruct bgp as [gp|]; [|to_none].
  destruct bY as [mY|]; [|to_none].
  destruct bS as [mS|]; [|to_none].
  destruct bD as [mD|]; [|to_none].
  destruct bM as [mM|]; [discriminate H|].
  to_none.
Qed.

Lemma update_accel_params_short (x f : list F) (a : AaWork F) :
  len x < a_l a \/ len f < a_l a ->
  update_accel_params x f a = None.
Proof.
  unfold update_accel_params.
  destruct (a_k a =? 0); [reflexivity|].
  destruct a as [t k l it bx bf bg bgp by_ bs bd bY bS bD bM bw bi].
  cbn [a_type1 a_k a_l a_iter a_x a_f a_g a_g_prev a_y a_s a_d a_Y a_S a_D
       a_M a_work a_ipiv].
  intros [H | H].
  - destruct bg as [g0|]; [|reflexivity].
    cbn [deref bind ret]. rewrite memcpy_short by exact H. reflexivity.
  - destruct bg as [g0|]; [|reflexivity].
    destruct bs as [s0|]; [|to_none].
    destruct bd as [d0|]; [|to_none].
    to_none.
Qed.

(** X10.  An enabled instance that lacks one of the three vectors of the
    previous call, the four work vectors, the three history matrices or the
    Gram matrix cannot be stepped: the call dereferences the null pointer,
    on the first call already. *)
Theorem missing_buffer_is_dereferenced (a : AaWork F) (f x : list F) :
  0 < a_k a ->
  (allocated (a_x a) && allocated (a_f a) && allocated (a_g a)
   && allocated (a_g_prev a) && allocated (a_y a) && allocated (a_s a)
   && allocated (a_d a) && allocated (a_Y a) && allocated (a_S a)
   && allocated (a_D a) && allocated (a_M a)) = false ->
  aa_apply MAX_AA_NRM f x a = None.
Proof.
  intros Hk H. unfold aa_apply.
  replace (a_k a <=? 0) with false by (symmetry; apply Z.leb_gt; lia).
  rewrite (update_accel_params_null x f a H). reflexivity.
Qed.

(** X11.  On an enabled instance the caller's x and f must have at least l
    entries: with a shorter vector the first copy reads past its end. *)
Theorem short_vector_is_overread (a : AaWork F) (f x : list F) :
  0 < a_k a ->
  len x < a_l a \/ len f < a_l a ->
  aa_apply MAX_AA_NRM f x a = None.
Proof.
  intros Hk H. unfold aa_apply.
  replace (a_k a <=? 0) with false by (symmetry; apply Z.leb_gt; lia).
  rewrite (update_accel_params_short x f a H). reflexivity.
Qed.



(** *** Vectors longer than l *)

Lemma memcpy_from_prefix (dst src : list F) (n : Z) :
  len dst = n -> n <= len src ->
  memcpy dst 0 src n = Some (firstn (Z.to_nat n) src, []).
Proof.
  intros Hd Hs. pose proof (len_nonneg dst) as Hn. unfold memcpy.
  replace ((0 <=? 0) && (0 <=? n) && (n <=? len src) && (0 + n <=? len dst))
    with true by (symmetry; rewrite !andb_true_iff; repeat split; lia).
  replace (0 + n) with (len dst) by lia.
  rewrite skipn_len. cbn [firstn Z.to_nat app]. rewrite app_nil_r.
  reflexivity.
Qed.

Lemma axpy_from_prefix (n : Z) (c : F) (x y : list F) :
  len y = n -> n <= len x ->
  axpy n c x y
  = Some (axpy_list c (firstn (Z.to_nat n) x) y, [Call_axpy n]).
Proof.
  intros Hy Hx. pose proof (len_nonneg y) as Hn. unfold axpy.
  replace ((0 <=? n) && (n <=? len x) && (n <=? len y))
    with true by (symmetry; rewrite !andb_true_iff; repeat split; lia).
  replace (firstn (Z.to_nat n) y) with y
    by (rewrite <- Hy, firstn_len; reflexivity).
  replace (skipn (Z.to_nat n) y) with (@nil F)
    by (rewrite <- Hy, skipn_len; reflexivity).
  simpl. rewrite app_nil_r. reflexivity.
Qed.

Ltac len_tac' :=
  repeat first [ rewrite len_axpy_list | rewrite len_firstn ];
  solve [assumption | lia | congruence].

Ltac step_mem' :=
  first [ rewrite memcpy_whole by len_tac'
        | rewrite memcpy_from_prefix by len_tac'
        | rewrite axpy_whole by len_tac'
        | rewrite axpy_from_prefix by len_tac'
        | rewrite memcpy_store by (try len_tac'; nia) ];
  cbn -[memcpy axpy gemm Z.rem Z.mul Z.eqb Z.add firstn Z.to_nat].

Lemma update_accel_params_prefix (x f : list F) (a : AaWork F) :
  well_formed a = true -> a_l a <= len x -> a_l a <= len f ->
  update_accel_params x f a
  = Some (updated (firstn (Z.to_nat (a_l a)) x)
            (firstn (Z.to_nat (a_l a)) f) a, update_trace a).
Proof.
  intros Hwf Hx Hf. open_wf Hwf a.
  destruct (rem_column it k Hwf13 Hwf) as [_ Hidx].
  unfold update_accel_params, updated, update_trace, column_offset, vsub.
  cbn -[memcpy axpy gemm Z.rem Z.mul Z.eqb Z.add firstn Z.to_nat].
  replace (k =? 0) with false by (symmetry; apply Z.eqb_neq; lia).
  repeat step_mem'.
  unfold set_m, anchor, gemm, emit.
  cbn -[memcpy axpy Z.rem Z.mul Z.eqb Z.add firstn Z.to_nat].
  destruct (t =? 0);
    cbn -[memcpy axpy Z.rem Z.mul Z.eqb Z.add firstn Z.to_nat];
    repeat step_mem'; reflexivity.
Qed.

(** X12.  Of the caller's x and f only the first l entries are read into
    the state: a call on longer vectors has the status, the trace and the
    resulting state of the call on the vectors cut at l, and what is stored
    as the previous x and f are these prefixes.  The count and the sizes
    are within the range of [aa_int]. *)
Theorem only_the_first_l_entries_count (a : AaWork F) (f x : list F) :
  well_formed a = true -> in_range INT_MAX a = true ->
  a_l a <= len x -> a_l a <= len f ->
  let x0 := firstn (Z.to_nat (a_l a)) x in
  let f0 := firstn (Z.to_nat (a_l a)) f in
  exists st f' f0' a' tr,
    aa_apply MAX_AA_NRM f x a = Some (st, f', a', tr) /\
    aa_apply MAX_AA_NRM f0 x0 a = Some (st, f0', a', tr) /\
    a_x a' = Some x0 /\ a_f a' = Some f0.
Proof.
  intros Hwf _ Hx Hf x0 f0.
  destruct (well_formed_bounds a Hwf) as (Hk & Hl & Hit).
  assert (Hx0 : len x0 = a_l a) by (apply len_firstn; lia).
  assert (Hf0 : len f0 = a_l a) by (apply len_firstn; lia).
  pose proof (update_accel_params_prefix x f a Hwf Hx Hf) as E.
  fold x0 f0 in E.
  pose proof (update_accel_params_eq x0 f0 a Hwf Hx0 Hf0) as E0.
  pose proof (stepped_well_formed x0 f0 a Hwf Hx0 Hf0) as Hs.
  unfold aa_apply. rewrite E, E0.
  replace (a_k a <=? 0) with false by (symmetry; apply Z.leb_gt; lia).
  unfold bind.
  replace (a_iter (updated x0 f0 a)) with (a_iter a) by reflexivity.
  fold (stepped x0 f0 a).
  destruct (a_iter a =? 0).
  - cbn [ret]. do 5 eexists. split; [reflexivity|].
    split; [reflexivity|]. split; reflexivity.
  - rewrite !(solve_eq _ (stepped x0 f0 a)) by exact Hs.
    match goal with
    | |- context [if ?c then _ else _] => destruct c
    end; do 5 eexists; (split; [reflexivity|]);
      (split; [reflexivity|]); split; reflexivity.
Qed.

End Properties.

(** ** The model on concrete inputs, in binary64 *)

Import B64.
Import Examples.

(** C1, at a failing input.  l = 1, k = 1, type 1; first call on x = 0,
    f = 1, second call on x = 1, f = 2.  The Gram matrix of the second call
    is the 1 x 1 zero matrix, gesv reports the zero pivot with info = 1 and
    leaves the right-hand side -1 in the workspace; its norm 1 is below
    [MAX_AA_NRM], so [aa_apply] returns 1, not a negative status, and
    overwrites f = 2 with 2 - 1 * (-1) = 3. *)
Theorem singular_system_is_accepted :
  a_M (updated (vec [1]) (vec [2]) after_0_1) = Some (vec [0]) /\
  solve_info (stepped (vec [1]) (vec [2]) after_0_1) 1 = 1 /\
  solve_weights (stepped (vec [1]) (vec [2]) after_0_1) 1 = vec [-1] /\
  exists a' tr,
    aa_apply max_aa_nrm (vec [2]) (vec [1]) after_0_1
    = Some (1, vec [3], a', tr) /\
    a_iter after_0_1 = 1 /\ a_k after_0_1 = 1 /\
    In (Call_gemv "NoTrans" 1 1 1) tr.
Proof.
  split; [vm_compute; reflexivity|].
  split; [vm_compute; reflexivity|].
  split; [vm_compute; reflexivity|].
  do 2 eexists. split; [vm_compute; reflexivity|].
  split; [reflexivity|]. split; [reflexivity|].
  cbn [In]. do 8 right. left. reflexivity.
Qed.

(** C8, at a failing input.  When the record is obtained and the request
    for the first buffer fails, [aa_init 1 1 1] still returns a handle,
    prints nothing, and the handle has a null x; the first call of
    [aa_apply] on it copies into the null pointer. *)
Theorem failed_buffer_is_not_reported :
  aa_init 1 1 1 all_but_x = (Some without_x, [], []) /\
  a_x without_x = None /\
  all_allocated without_x = false /\
  aa_apply max_aa_nrm (vec [1]) (vec [0]) without_x = None.
Proof. repeat split; vm_compute; reflexivity. Qed.

(** C3 fails as stated.  l = 1, k = 2, second call (count 1 at entry):
    gesv is called with order 1, not 2, and the call succeeds with status 0
    and f = 3 corrected to 5; the 2 x 2 solve of the same Gram matrix and
    right-hand side would stop at a zero pivot (info = 2). *)
Lemma solve_is_smaller_than_the_memory :
  well_formed depth_two = true /\
  a_k depth_two = 2 /\ a_iter depth_two = 1 /\
  exists a' tr,
    aa_apply max_aa_nrm (vec [3]) (vec [1]) depth_two
    = Some (0, vec [5], a', tr) /\
    In (Call_gesv 1 1 2 1) tr /\
    (forall n nrhs lda ldb,
       In (Call_gesv n nrhs lda ldb) tr -> n <> a_k depth_two) /\
    let a1 := stepped (vec [1]) (vec [3]) depth_two in
    snd (blas_gesv 2 1 (buf (a_M a1)) 2 (buf (a_ipiv a1))
           (blas_gemv "Trans" 1 2 fone (buf (a_S a1)) 1 (buf (a_g a1)) 1
              fzero (buf (a_work a1)) 1) 2) = 2.
Proof.
  split; [reflexivity|]. split; [reflexivity|]. split; [reflexivity|].
  do 2 eexists. split; [vm_compute; reflexivity|].
  split; [cbn [In]; do 6 right; left; reflexivity|].
  split; [|vm_compute; reflexivity].
  intros n nrhs lda ldb H. cbn [In] in H.
  repeat (destruct H as [H | H]; try discriminate); [|contradiction].
  injection H as <- _ _ _. cbn. lia.
Qed.


(** ** Instances of the theorems

    Each theorem above that has hypotheses, applied to a run of the model:
    in binary64 on the reference backend, and over the integers for the
    identity that needs exact arithmetic. *)

Lemma disabled_instance_is_inert_witness :
  0 <= 0 /\
  aa_init (F:=spec_float) 2 0 1 [true] = (Some (fresh_disabled 2 0 1), [], [])
  /\ aa_apply max_aa_nrm (vec [1; 1]) (vec [0; 0]) (fresh_disabled 2 0 1)
     = Some (0, vec [1; 1], fresh_disabled 2 0 1, [])
  /\ a_iter (fresh_disabled (F:=spec_float) 2 0 1) = 0
  /\ run max_aa_nrm [(vec [0; 0], vec [1; 1]); (vec [1; 1], vec [2; 0])]
       (fresh_disabled 2 0 1)
     = Some (fresh_disabled 2 0 1).
Proof.
  assert (H1 : 0 <= 0) by lia.
  assert (H2 : aa_init (F:=spec_float) 2 0 1 [true]
               = (Some (fresh_disabled 2 0 1), [], [])) by reflexivity.
  split; [exact H1|]. split; [exact H2|].
  exact (disabled_instance_is_inert max_aa_nrm 2 0 1 [true] []
           (fresh_disabled 2 0 1) [] (vec [1; 1]) (vec [0; 0])
           [(vec [0; 0], vec [1; 1]); (vec [1; 1], vec [2; 0])] H1 H2).
Defined.

Lemma first_step_is_warmup_witness :
  0 < 2 /\
  sizes_fit INT_MAX 2 2 = true /\
  aa_init (F:=spec_float) 2 2 1 (repeat true 14) = (Some (fresh 2 2 1), [], [])
  /\ all_allocated (fresh (F:=spec_float) 2 2 1) = true
  /\ len (vec [0; 0]) = 2 /\ len (vec [1; 1]) = 2
  /\ exists a',
       aa_apply max_aa_nrm (vec [1; 1]) (vec [0; 0]) (fresh 2 2 1)
       = Some (0, vec [1; 1], a', update_trace (fresh 2 2 1)) /\
       a_x a' = Some (vec [0; 0]) /\ a_f a' = Some (vec [1; 1]) /\
       a_iter a' = 1.
Proof.
  assert (H1 : 0 < 2) by lia.
  assert (HR : sizes_fit INT_MAX 2 2 = true) by reflexivity.
  assert (H2 : aa_init (F:=spec_float) 2 2 1 (repeat true 14)
               = (Some (fresh 2 2 1), [], [])) by reflexivity.
  assert (H3 : all_allocated (fresh (F:=spec_float) 2 2 1) = true)
    by reflexivity.
  assert (H4 : len (vec [0; 0]) = 2) by reflexivity.
  assert (H5 : len (vec [1; 1]) = 2) by reflexivity.
  repeat (split; [assumption|]).
  destruct (first_step_is_warmup max_aa_nrm 2 2 1 (repeat true 14)
              [] (fresh 2 2 1) [] (vec [1; 1]) (vec [0; 0])
              H1 HR H2 H3 H4 H5)
    as (a1 & a' & _ & _ & E & Hx & Hf & Hit).
  exists a'. repeat split; assumption.
Defined.

Lemma snapshots_are_the_raw_arguments_witness :
  well_formed after_0_1 = true /\
  in_range INT_MAX after_0_1 = true /\
  len (vec [1]) = a_l after_0_1 /\ len (vec [3]) = a_l after_0_1 /\
  exists st f' a' tr,
    aa_apply max_aa_nrm (vec [3]) (vec [1]) after_0_1
    = Some (st, f', a', tr) /\
    a_x a' = Some (vec [1]) /\ a_f a' = Some (vec [3]) /\ f' = vec [-1].
Proof.
  assert (H1 : well_formed after_0_1 = true) by reflexivity.
  assert (HR : in_range INT_MAX after_0_1 = true) by reflexivity.
  assert (H2 : len (vec [1]) = a_l after_0_1) by reflexivity.
  assert (H3 : len (vec [3]) = a_l after_0_1) by reflexivity.
  repeat (split; [assumption|]).
  destruct (snapshots_are_the_raw_arguments max_aa_nrm after_0_1
              (vec [3]) (vec [1]) H1 HR H2 H3)
    as (st & f' & a' & tr & E & Hx & Hf & _).
  exists st, f', a', tr. repeat split; try assumption.
  assert (E2 : exists a2 t2,
             aa_apply max_aa_nrm (vec [3]) (vec [1]) after_0_1
             = Some (0, vec [-1], a2, t2))
    by (do 2 eexists; vm_compute; reflexivity).
  destruct E2 as (a2 & t2 & E2). rewrite E2 in E. inversion E. reflexivity.
Defined.

Lemma history_update_and_gram_witness :
  well_formed after_0_1 = true /\
  in_range INT_MAX after_0_1 = true /\
  len (vec [1]) = a_l after_0_1 /\ len (vec [3]) = a_l after_0_1 /\
  exists a1,
    update_accel_params (vec [1]) (vec [3]) after_0_1
    = Some (a1, update_trace after_0_1) /\
    a_g a1 = Some (vec [-2]) /\ a_s a1 = Some (vec [1]) /\
    a_d a1 = Some (vec [2]) /\ a_y a1 = Some (vec [-1]).
Proof.
  assert (H1 : well_formed after_0_1 = true) by reflexivity.
  assert (HR : in_range INT_MAX after_0_1 = true) by reflexivity.
  assert (H2 : len (vec [1]) = a_l after_0_1) by reflexivity.
  assert (H3 : len (vec [3]) = a_l after_0_1) by reflexivity.
  repeat (split; [assumption|]).
  destruct (history_update_and_gram max_aa_nrm after_0_1 (vec [3])
              (vec [1]) H1 HR H2 H3)
    as (xp & fp & gp & mY & mS & mD & mM & a1 & Ex & Ef & Eg & _ & _ & _ & _
        & E & Hg & Hs & Hd & Hy & _).
  exists a1. split; [exact E|].
  injection Ex as <-. injection Ef as <-. injection Eg as <-.
  rewrite Hg, Hs, Hd, Hy. repeat split; vm_compute; reflexivity.
Defined.

Lemma history_is_circular_witness :
  well_formed depth_two = true /\
  in_range INT_MAX depth_two = true /\
  len (vec [1]) = a_l depth_two /\ len (vec [3]) = a_l depth_two /\
  Forall (sized (a_l depth_two)) [(vec [0], vec [4])] /\
  len [(vec [0], vec [4])] < a_k depth_two /\
  a_iter depth_two + len [(vec [0], vec [4])] < INT_MAX /\
  exists a1 a2,
    run max_aa_nrm [(vec [1], vec [3])] depth_two = Some a1 /\
    run max_aa_nrm [(vec [0], vec [4])] a1 = Some a2 /\
    col 1 (buf (a_Y a2)) 1 = col 1 (buf (a_Y a1)) 1 /\
    a_iter a2 = 3 /\ a_iter a2 mod a_k a2 = 1.
Proof.
  assert (H1 : well_formed depth_two = true) by reflexivity.
  assert (H2 : len (vec [1]) = a_l depth_two) by reflexivity.
  assert (H3 : len (vec [3]) = a_l depth_two) by reflexivity.
  assert (H4 : Forall (sized (a_l depth_two)) [(vec [0], vec [4])])
    by (repeat constructor).
  assert (H5 : len [(vec [0], vec [4])] < a_k depth_two)
    by (vm_compute; reflexivity).
  assert (HR : in_range INT_MAX depth_two = true) by reflexivity.
  assert (HC : a_iter depth_two + len [(vec [0], vec [4])] < INT_MAX)
    by (vm_compute; reflexivity).
  repeat (split; [assumption|]).
  destruct (history_is_circular max_aa_nrm depth_two (vec [3])
              (vec [1]) [(vec [0], vec [4])] H1 HR H2 H3 H4 H5 HC)
    as (st & f' & a1 & tr & a2 & E & _ & _ & _ & _ & Hrun & _ & HY & _ & _
        & Hlast).
  exists a1, a2. cbn [run]. rewrite E.
  destruct (Hlast eq_refl) as [Hit Hmod].
  repeat split; assumption.
Defined.

Lemma rejection_is_not_terminal_witness :
  well_formed steep = true /\
  in_range INT_MAX steep = true /\
  a_iter steep + 1 < INT_MAX /\
  len (vec [1]) = a_l steep /\ len (vec [-10000]) = a_l steep /\
  1 <= a_iter steep /\
  exists a' tr,
    aa_apply max_aa_nrm (vec [-10000]) (vec [1]) steep
    = Some (-1, vec [-10000], a', tr) /\
    -1 < 0 /\
    a_f a' = Some (vec [-10000]) /\ a_iter a' = 2 /\
    well_formed a' = true.
Proof.
  assert (H1 : well_formed steep = true) by reflexivity.
  assert (H2 : len (vec [1]) = a_l steep) by reflexivity.
  assert (H3 : len (vec [-10000]) = a_l steep) by reflexivity.
  assert (H4 : 1 <= a_iter steep) by (vm_compute; discriminate).
  assert (H6 : -1 < 0) by lia.
  assert (HR : in_range INT_MAX steep = true) by reflexivity.
  assert (HC : a_iter steep + 1 < INT_MAX) by (vm_compute; reflexivity).
  repeat (split; [assumption|]).
  assert (E : exists a' tr,
            aa_apply max_aa_nrm (vec [-10000]) (vec [1]) steep
            = Some (-1, vec [-10000], a', tr))
    by (do 2 eexists; vm_compute; reflexivity).
  destruct E as (a' & tr & E). exists a', tr.
  destruct (rejection_is_not_terminal max_aa_nrm steep
              (vec [-10000]) (vec [1]) (-1) (vec [-10000]) a' tr
              H1 HR HC H2 H3 H4 E H6)
    as (_ & _ & _ & Hf & _ & Hit & Hwf & _).
  repeat split; assumption.
Defined.

Lemma solve_has_the_valid_length_witness :
  well_formed depth_two = true /\
  in_range INT_MAX depth_two = true /\
  len (vec [1]) = a_l depth_two /\ len (vec [3]) = a_l depth_two /\
  1 <= a_iter depth_two /\
  exists st f' a' tr,
    aa_apply max_aa_nrm (vec [3]) (vec [1]) depth_two
    = Some (st, f', a', tr) /\
    In (Call_gesv 1 1 2 1) tr /\ In (Call_nrm2 2) tr.
Proof.
  assert (H1 : well_formed depth_two = true) by reflexivity.
  assert (H2 : len (vec [1]) = a_l depth_two) by reflexivity.
  assert (H3 : len (vec [3]) = a_l depth_two) by reflexivity.
  assert (H4 : 1 <= a_iter depth_two) by (vm_compute; discriminate).
  assert (HR : in_range INT_MAX depth_two = true) by reflexivity.
  repeat (split; [assumption|]).
  destruct (solve_has_the_valid_length max_aa_nrm depth_two (vec [3])
              (vec [1]) H1 HR H2 H3 H4)
    as (st & f' & a' & tr & E & Hgesv & _ & _ & Hnrm & _).
  exists st, f', a', tr. split; [exact E|].
  split; [apply Hgesv; repeat split | exact Hnrm].
Defined.

#[local] Existing Instance ZS.scalar.
#[local] Existing Instance ZS.blas.

Lemma Z_scalar_ring :
  ring_theory (R:=Z) fzero fone fadd fmul fsub fopp eq.
Proof.
  constructor; intros; unfold fopp; cbn [fzero fone fadd fmul fsub fneg_one
    ZS.scalar]; ring.
Qed.


(** ** binary64 with any backend *)

Section AnyBackend.

Variable backend : Blas spec_float.

(** X14.  In binary64 a norm that is NaN passes the safeguard whatever the
    threshold, [nrm >= MAX_AA_NRM] being false for it: unless [info] is
    negative the correction is applied with these weights and [info] is
    returned.  The count and the sizes are within the range of [aa_int]. *)
Theorem nan_norm_passes_the_safeguard (threshold : spec_float)
  (a : AaWork spec_float) (f x : list spec_float) :
  well_formed a = true -> in_range INT_MAX a = true ->
  len x = a_l a -> len f = a_l a ->
  1 <= a_iter a ->
  let a1 := stepped (BL:=backend) x f a in
  let n := MIN (a_iter a) (a_k a) in
  solve_norm (BL:=backend) a1 n = S754_nan ->
  0 <= solve_info (BL:=backend) a1 n ->
  exists a' tr,
    aa_apply (BL:=backend) threshold f x a
    = Some (solve_info (BL:=backend) a1 n,
            corrected (BL:=backend) f a1 n, a', tr).
Proof.
  intros Hwf _ Hx Hf Hit a1 n Hnan Hinfo.
  destruct (aa_apply_outcome (BL:=backend) threshold a f x Hwf Hx Hf Hit)
    as (st & f' & tr & E & Hneg & _ & Hacc).
  fold a1 n in E, Hneg, Hacc.
  assert (Hst : 0 <= st).
  { destruct (Z_lt_le_dec st 0) as [H | H]; [|exact H].
    apply Hneg in H. destruct H as [H | H]; [lia|].
    rewrite Hnan in H. discriminate H. }
  destruct (Hacc Hst) as (-> & -> & _).
  do 2 eexists. exact E.
Qed.

End AnyBackend.

(** ** Instances of the further properties *)

Lemma run_is_memory_safe_witness :
  well_formed depth_two = true /\
  sizes_fit INT_MAX (a_l depth_two) (a_k depth_two) = true /\
  a_iter depth_two + len [(vec [1], vec [3]); (vec [0], vec [4])]
  <= INT_MAX /\
  Forall (sized (a_l depth_two)) [(vec [1], vec [3]); (vec [0], vec [4])] /\
  exists a',
    run max_aa_nrm [(vec [1], vec [3]); (vec [0], vec [4])] depth_two
    = Some a' /\
    well_formed a' = true /\ a_iter a' = 3.
Proof.
  assert (H1 : well_formed depth_two = true) by reflexivity.
  assert (H2 : Forall (sized (a_l depth_two))
                 [(vec [1], vec [3]); (vec [0], vec [4])])
    by (repeat constructor).
  assert (HR : sizes_fit INT_MAX (a_l depth_two) (a_k depth_two) = true)
    by reflexivity.
  assert (HC : a_iter depth_two
               + len [(vec [1], vec [3]); (vec [0], vec [4])] <= INT_MAX)
    by (vm_compute; discriminate).
  repeat (split; [assumption|]).
  destruct (run_is_memory_safe max_aa_nrm _ depth_two H1 HR HC H2)
    as (a' & Hrun & Hwf & Hit & _).
  exists a'. repeat split; assumption.
Defined.

Lemma status_and_diagnostic_witness :
  ((well_formed steep = true /\ len (vec [1]) = a_l steep
    /\ len (vec [-10000]) = a_l steep) \/ a_k steep <= 0) /\
  exists a' tr,
    aa_apply max_aa_nrm (vec [-10000]) (vec [1]) steep
    = Some (-1, vec [-10000], a', tr) /\
    exists i info nrm, In (Print_error i info nrm) tr.
Proof.
  assert (H1 : (well_formed steep = true /\ len (vec [1]) = a_l steep
                /\ len (vec [-10000]) = a_l steep) \/ a_k steep <= 0)
    by (left; repeat split; reflexivity).
  split; [exact H1|].
  assert (E : exists a' tr,
            aa_apply max_aa_nrm (vec [-10000]) (vec [1]) steep
            = Some (-1, vec [-10000], a', tr))
    by (do 2 eexists; vm_compute; reflexivity).
  destruct E as (a' & tr & E). exists a', tr. split; [exact E|].
  destruct (status_and_diagnostic max_aa_nrm steep (vec [-10000]) (vec [1])
              (-1) (vec [-10000]) a' tr H1 E)
    as (_ & Hpr & _).
  apply Hpr. lia.
Defined.

Lemma unwritten_columns_are_zero_witness :
  0 < 2 /\ sizes_fit INT_MAX 1 2 = true /\
  reachable max_aa_nrm 1 2 1 depth_two /\
  a_iter depth_two <= INT_MAX /\
  a_iter depth_two <= 1 < 2 /\
  col 1 (buf (a_Y depth_two)) 1 = zeros 1 /\
  col 1 (buf (a_S depth_two)) 1 = zeros 1 /\
  col 1 (buf (a_D depth_two)) 1 = zeros 1.
Proof.
  assert (H1 : 0 < 2) by lia.
  assert (H2 : reachable max_aa_nrm 1 2 1 depth_two).
  { eapply reach_step with (a := fresh 1 2 1) (x := vec [2]) (f := vec [1]).
    - eapply reach_init with (h := repeat true 14); reflexivity.
    - reflexivity.
    - reflexivity.
    - vm_compute. reflexivity. }
  assert (H3 : a_iter depth_two <= 1 < 2) by (vm_compute; split; congruence).
  assert (HR : sizes_fit INT_MAX 1 2 = true) by reflexivity.
  assert (HC : a_iter depth_two <= INT_MAX) by (vm_compute; discriminate).
  repeat (split; [assumption|]).
  exact (unwritten_columns_are_zero max_aa_nrm 1 2 1 depth_two
           H1 HR H2 HC 1 H3).
Defined.

Lemma release_after_any_run_witness :
  0 < 2 /\
  sizes_fit INT_MAX 1 2 = true /\
  aa_init (F:=spec_float) 1 2 1 (repeat true 14) = (Some (fresh 1 2 1), [], [])
  /\ all_allocated (fresh (F:=spec_float) 1 2 1) = true
  /\ Forall (sized 1) [(vec [2], vec [1]); (vec [1], vec [3])]
  /\ len [(vec [2], vec [1]); (vec [1], vec [3])] <= INT_MAX
  /\ exists a',
       run max_aa_nrm [(vec [2], vec [1]); (vec [1], vec [3])] (fresh 1 2 1)
       = Some a' /\
       aa_finish (Some a') = all_blocks.
Proof.
  assert (H1 : 0 < 2) by lia.
  assert (H2 : aa_init (F:=spec_float) 1 2 1 (repeat true 14)
               = (Some (fresh 1 2 1), [], [])) by reflexivity.
  assert (H3 : all_allocated (fresh (F:=spec_float) 1 2 1) = true)
    by reflexivity.
  assert (H4 : Forall (sized 1) [(vec [2], vec [1]); (vec [1], vec [3])])
    by (repeat constructor).
  assert (HR : sizes_fit INT_MAX 1 2 = true) by reflexivity.
  assert (HC : len [(vec [2], vec [1]); (vec [1], vec [3])] <= INT_MAX)
    by (vm_compute; discriminate).
  repeat (split; [assumption|]).
  destruct (release_after_any_run max_aa_nrm 1 2 1 (repeat true 14)
              [] (fresh 1 2 1) [] _ H1 HR H2 H3 H4 HC)
    as (a' & Hrun & Hfin & _).
  exists a'. split; assumption.
Defined.

Lemma disabled_instance_life_cycle_witness :
  0 <= 0 /\
  aa_init (F:=spec_float) 3 0 1 [true; false]
  = (Some (fresh_disabled 3 0 1), [], [false]) /\
  aa_finish (Some (fresh_disabled (F:=spec_float) 3 0 1)) = [Blk_record].
Proof.
  assert (H1 : 0 <= 0) by lia.
  split; [exact H1|].
  destruct (disabled_instance_life_cycle max_aa_nrm 3 0 1 [false]
              [(vec [1; 2; 3], vec [0; 0; 0])] H1)
    as (Hinit & _ & Hfin).
  split; assumption.
Defined.

Lemma aa_init_null_iff_record_refused_witness :
  aa_init 1 1 1 all_but_x = (Some without_x, [], []) /\
  (Some without_x = None <-> hd false all_but_x = false).
Proof.
  assert (H1 : aa_init 1 1 1 all_but_x = (Some without_x, [], []))
    by reflexivity.
  split; [exact H1|].
  destruct (aa_init_null_iff_record_refused 1 1 1 all_but_x
              (Some without_x) [] [] H1) as (Hiff & _).
  exact Hiff.
Defined.

Lemma aa_init_all_granted_witness :
  0 < 3 /\ 0 <= 2 /\ sizes_fit INT_MAX 2 3 = true /\
  exists a : AaWork spec_float,
    aa_init 2 3 0 (repeat true 14 ++ [false]) = (Some a, [], [false]) /\
    a_Y a = Some (zeros 6) /\ a_M a = Some (zeros 9) /\
    well_formed a = true.
Proof.
  assert (H1 : 0 < 3) by lia.
  assert (H2 : 0 <= 2) by lia.
  assert (HR : sizes_fit INT_MAX 2 3 = true) by reflexivity.
  repeat (split; [assumption|]).
  destruct (aa_init_all_granted (F:=spec_float) 2 3 0 [false]
              H1 H2 HR)
    as (a & Hinit & _ & _ & _ & _ & _ & _ & _ & _ & _ & _ & _ & HY & _ & _
        & HM & _ & _ & _ & _ & _ & _ & Hwf).
  exists a. repeat split; assumption.
Defined.

Lemma aa_finish_releases_what_aa_init_obtained_witness :
  0 <= 1 /\
  aa_init 1 1 1 all_but_x = (Some without_x, [], []) /\
  exists used,
    all_but_x = used ++ [] /\
    List.length (aa_finish (Some without_x)) = granted used /\
    granted used = 13%nat.
Proof.
  assert (H1 : 0 <= 1) by lia.
  assert (H2 : aa_init 1 1 1 all_but_x = (Some without_x, [], []))
    by reflexivity.
  repeat (split; [assumption|]).
  destruct (aa_finish_releases_what_aa_init_obtained 1 1 1 all_but_x []
              (Some without_x) [] H1 H2) as (used & Hused & Hlen).
  exists used. split; [exact Hused|]. split; [exact Hlen|].
  rewrite <- Hlen. reflexivity.
Defined.

Lemma missing_buffer_is_dereferenced_witness :
  0 < a_k without_x /\
  (allocated (a_x without_x) && allocated (a_f without_x)
   && allocated (a_g without_x) && allocated (a_g_prev without_x)
   && allocated (a_y without_x) && allocated (a_s without_x)
   && allocated (a_d without_x) && allocated (a_Y without_x)
   && allocated (a_S without_x) && allocated (a_D without_x)
   && allocated (a_M without_x)) = false /\
  aa_apply max_aa_nrm (vec [1]) (vec [0]) without_x = None.
Proof.
  assert (H1 : 0 < a_k without_x) by reflexivity.
  assert (H2 : (allocated (a_x without_x) && allocated (a_f without_x)
                && allocated (a_g without_x) && allocated (a_g_prev without_x)
                && allocated (a_y without_x) && allocated (a_s without_x)
                && allocated (a_d without_x) && allocated (a_Y without_x)
                && allocated (a_S without_x) && allocated (a_D without_x)
                && allocated (a_M without_x)) = false) by reflexivity.
  repeat (split; [assumption|]).
  exact (missing_buffer_is_dereferenced max_aa_nrm without_x (vec [1])
           (vec [0]) H1 H2).
Defined.

Lemma short_vector_is_overread_witness :
  0 < a_k (fresh (F:=spec_float) 2 1 1) /\
  (len (vec [1]) < a_l (fresh (F:=spec_float) 2 1 1)
   \/ len (vec [1; 1]) < a_l (fresh (F:=spec_float) 2 1 1)) /\
  aa_apply max_aa_nrm (vec [1; 1]) (vec [1]) (fresh 2 1 1) = None.
Proof.
  assert (H1 : 0 < a_k (fresh (F:=spec_float) 2 1 1)) by reflexivity.
  assert (H2 : len (vec [1]) < a_l (fresh (F:=spec_float) 2 1 1)
               \/ len (vec [1; 1]) < a_l (fresh (F:=spec_float) 2 1 1))
    by (left; reflexivity).
  repeat (split; [assumption|]).
  exact (short_vector_is_overread max_aa_nrm (fresh 2 1 1) (vec [1; 1])
           (vec [1]) H1 H2).
Defined.

Lemma only_the_first_l_entries_count_witness :
  well_formed after_0_1 = true /\
  in_range INT_MAX after_0_1 = true /\
  a_l after_0_1 <= len (vec [1; 7]) /\ a_l after_0_1 <= len (vec [3; 9]) /\
  exists st f' f0' a' tr,
    aa_apply max_aa_nrm (vec [3; 9]) (vec [1; 7]) after_0_1
    = Some (st, f', a', tr) /\
    aa_apply max_aa_nrm (vec [3]) (vec [1]) after_0_1
    = Some (st, f0', a', tr) /\
    a_x a' = Some (vec [1]) /\ a_f a' = Some (vec [3]).
Proof.
  assert (H1 : well_formed after_0_1 = true) by reflexivity.
  assert (H2 : a_l after_0_1 <= len (vec [1; 7]))
    by (vm_compute; discriminate).
  assert (H3 : a_l after_0_1 <= len (vec [3; 9]))
    by (vm_compute; discriminate).
  assert (HR : in_range INT_MAX after_0_1 = true) by reflexivity.
  repeat (split; [assumption|]).
  exact (only_the_first_l_entries_count max_aa_nrm after_0_1
           (vec [3; 9]) (vec [1; 7]) H1 HR H2 H3).
Defined.

Lemma positive_info_is_accepted_witness :
  well_formed after_0_1 = true /\
  in_range INT_MAX after_0_1 = true /\
  len (vec [1]) = a_l after_0_1 /\ len (vec [2]) = a_l after_0_1 /\
  1 <= a_iter after_0_1 /\
  0 < solve_info (stepped (vec [1]) (vec [2]) after_0_1)
         (MIN (a_iter after_0_1) (a_k after_0_1)) /\
  fge (solve_norm (stepped (vec [1]) (vec [2]) after_0_1)
         (MIN (a_iter after_0_1) (a_k after_0_1))) max_aa_nrm = false /\
  exists a' tr,
    aa_apply max_aa_nrm (vec [2]) (vec [1]) after_0_1
    = Some (1, vec [3], a', tr).
Proof.
  assert (H1 : well_formed after_0_1 = true) by reflexivity.
  assert (H2 : len (vec [1]) = a_l after_0_1) by reflexivity.
  assert (H3 : len (vec [2]) = a_l after_0_1) by reflexivity.
  assert (H4 : 1 <= a_iter after_0_1) by (vm_compute; discriminate).
  assert (H5 : 0 < solve_info (stepped (vec [1]) (vec [2]) after_0_1)
                     (MIN (a_iter after_0_1) (a_k after_0_1)))
    by (vm_compute; reflexivity).
  assert (H6 : fge (solve_norm (stepped (vec [1]) (vec [2]) after_0_1)
                      (MIN (a_iter after_0_1) (a_k after_0_1))) max_aa_nrm
               = false)
    by (vm_compute; reflexivity).
  assert (HR : in_range INT_MAX after_0_1 = true) by reflexivity.
  repeat (split; [assumption|]).
  destruct (positive_info_is_accepted max_aa_nrm after_0_1 (vec [2])
              (vec [1]) H1 HR H2 H3 H4 H5 H6) as (a' & tr & E).
  exists a', tr. rewrite E. vm_compute. reflexivity.
Defined.

Lemma nan_norm_passes_the_safeguard_witness :
  well_formed after_0_1 = true /\
  in_range INT_MAX after_0_1 = true /\
  len [S754_infinity false] = a_l after_0_1 /\
  len (vec [1]) = a_l after_0_1 /\
  1 <= a_iter after_0_1 /\
  solve_norm (stepped [S754_infinity false] (vec [1]) after_0_1)
    (MIN (a_iter after_0_1) (a_k after_0_1)) = S754_nan /\
  0 <= solve_info (stepped [S754_infinity false] (vec [1]) after_0_1)
         (MIN (a_iter after_0_1) (a_k after_0_1)) /\
  exists a' tr,
    aa_apply max_aa_nrm (vec [1]) [S754_infinity false] after_0_1
    = Some (0, [S754_nan], a', tr).
Proof.
  assert (H1 : well_formed after_0_1 = true) by reflexivity.
  assert (H2 : len [S754_infinity false] = a_l after_0_1) by reflexivity.
  assert (H3 : len (vec [1]) = a_l after_0_1) by reflexivity.
  assert (H4 : 1 <= a_iter after_0_1) by (vm_compute; discriminate).
  assert (H5 : solve_norm (stepped [S754_infinity false] (vec [1]) after_0_1)
                 (MIN (a_iter after_0_1) (a_k after_0_1)) = S754_nan)
    by (vm_compute; reflexivity).
  assert (H6 : 0 <= solve_info
                      (stepped [S754_infinity false] (vec [1]) after_0_1)
                      (MIN (a_iter after_0_1) (a_k after_0_1)))
    by (vm_compute; discriminate).
  assert (HR : in_range INT_MAX after_0_1 = true) by reflexivity.
  repeat (split; [assumption|]).
  destruct (nan_norm_passes_the_safeguard B64.blas max_aa_nrm
              after_0_1 (vec [1]) [S754_infinity false]
              H1 HR H2 H3 H4 H5 H6)
    as (a' & tr & E).
  exists a', tr. rewrite E. vm_compute. reflexivity.
Defined.
